(** * tgbot: a Telegram front end to yt-dlp (src/bot.py)

    A shallow embedding of the two handlers ([url_handler],
    [download_button_callback]) and of the two formatting helpers
    ([format_size], [escape_markdown_v2]), with the properties the
    specification states about them.

    Conventions of the embedding.
    - Python [str] is [string] (a sequence of bytes, UTF-8 for the
      non-ASCII literals of the source); every character the code inspects
      is ASCII, and no byte of a multi-byte UTF-8 sequence is ASCII, so
      working on bytes or on code points gives the same result.
    - Python [int] is [Z]; [None]-able dictionary entries read with
      [dict.get] are [option]s.
    - A raised exception is the [Raise] case of [result]; the handlers run
      in a state-and-exception monad over a [world] that holds the local
      files, the per-user session dictionary and the history of the calls
      made to the two collaborators (chat transport, yt-dlp). What a
      collaborator answers is not decided by this program: it is given by
      an [oracle], and every theorem about a handler holds for all oracles.
    - [logger] calls have no effect on any of the modelled state and are
      left out. *)

From Stdlib Require Import ZArith Ascii String DecimalString DecimalPos DecimalZ.
From stdpp Require Import base tactics option list sorting gmap strings.

Local Open Scope Z_scope.

(** ** Exceptions and results *)

Inductive exn : Type :=
  | DownloadError (msg : string)   (* yt_dlp.utils.DownloadError *)
  | ValueError                     (* math domain error, unpacking arity *)
  | IndexError                     (* tuple index out of range *)
  | FileNotFoundError              (* open() of a missing file *)
  | OtherException (msg : string). (* any other subclass of Exception *)

Inductive result (A : Type) : Type :=
  | Ok (a : A)
  | Raise (e : exn).
Arguments Ok {A} a.
Arguments Raise {A} e.

Definition rbind {A B} (r : result A) (k : A → result B) : result B :=
  match r with Ok a => k a | Raise e => Raise e end.

Definition is_Ok {A} (r : result A) : Prop := ∃ a, r = Ok a.

(** ** Decimal rendering of integers, as [str(int)] does *)

Definition str_Z (z : Z) : string := NilZero.string_of_int (Z.to_int z).

(** * Formatting helpers *)

Module Helpers.

(** ** [format_size] *)

Definition size_name : list string := ["B"; "KB"; "MB"; "GB"].

(** [int(math.floor(math.log(size_bytes, 1024)))] for [size_bytes >= 1].
    The source evaluates the logarithm in double precision. For an integer
    argument below [1024^4] the computed quotient [log(n)/log(1024)] is an
    exact integer at the powers of 1024 and is separated from the next
    integer by far more than one unit in the last place just below them,
    so its floor is the floor of the real logarithm; from [1024^4] on the
    computed value is at least 4. The real floor is what is defined
    here. *)
Definition log1024_floor (n : Z) : Z := Z.log2 n / 10.

(** [round(size_bytes / p, 2)], as a number of hundredths. [p] is a power
    of two, so for byte counts below [2^53] the quotient is computed
    exactly; [round] then rounds the exact value to two decimals, a tie
    going to the even hundredth. *)
Definition round2 (n p : Z) : Z :=
  let q := (100 * n) / p in
  let r := (100 * n) mod p in
  if 2 * r <? p then q
  else if p <? 2 * r then q + 1
  else if Z.even q then q else q + 1.

(** The text an f-string gives for a float holding [c] hundredths: the
    integer part, a point, and the decimals without a trailing zero but
    with at least one digit ([1.0], [1.5], [1023.99], [2.05]). *)
Definition str_float2 (c : Z) : string :=
  let ip := c / 100 in
  let fr := c mod 100 in
  str_Z ip +:+ "." +:+
  (if fr mod 10 =? 0 then str_Z (fr / 10)
   else str_Z (fr / 10) +:+ str_Z (fr mod 10)).

Definition format_size (size_bytes : option Z) : result string :=
  match size_bytes with
  | None => Ok ""
  | Some n =>
      if n =? 0 then Ok ""
      else if n <? 0 then Raise ValueError       (* math.log: domain error *)
      else
        let i := log1024_floor n in
        let p := 1024 ^ i in
        let s := round2 n p in
        match size_name !! Z.to_nat i with
        | Some unit_ => Ok ("(" +:+ str_float2 s +:+ " " +:+ unit_ +:+ ")")
        | None => Raise IndexError
        end
  end.

(** ** [escape_markdown_v2] *)

Definition escape_chars : string := "_*[]()~`>#+-=|{}.!".

Fixpoint char_in (c : ascii) (s : string) : bool :=
  match s with
  | EmptyString => false
  | String d s' => if Ascii.eqb c d then true else char_in c s'
  end.

Definition backslash : ascii := "\"%char.

(** One step of the generator: [f'\\{char}' if char in escape_chars else char]. *)
Definition escape_char (c : ascii) : string :=
  if char_in c escape_chars then String backslash (String c EmptyString)
  else String c EmptyString.

(** [''.join(... for char in text)]. *)
Fixpoint join_map (f : ascii → string) (text : string) : string :=
  match text with
  | EmptyString => EmptyString
  | String c rest => f c +:+ join_map f rest
  end.

Definition escape_markdown_v2 (text : string) : string :=
  join_map escape_char text.

End Helpers.

(** * The Link Handler's button selection *)

(** A format descriptor of the extraction service: the keys of the
    dictionary that the handler reads. Every key read with [dict.get] may
    be missing; [format_id] is read with [best_audio['format_id']] and is
    set by the service on every descriptor it returns. *)
Record format_desc : Type := FormatDesc {
  vcodec : option string;
  acodec : option string;
  ext : option string;
  height : option Z;
  filesize : option Z;
  filesize_approx : option Z;
  format_id : string
}.

(** [InlineKeyboardButton(text, callback_data=...)]. *)
Record button : Type := Button {
  text : string;
  callback_data : string
}.

Global Instance format_desc_eq_dec : EqDecision format_desc.
Proof. solve_decision. Defined.
Global Instance button_eq_dec : EqDecision button.
Proof. solve_decision. Defined.

Module Link.
Import Helpers.

(** [a or b] on optional integers: [a] when it is truthy (present and not
    zero), else [b]. *)
Definition py_or (a b : option Z) : option Z :=
  match a with
  | Some n => if n =? 0 then b else a
  | None => b
  end.

(** [f.get('filesize') or f.get('filesize_approx')]. *)
Definition file_size (f : format_desc) : option Z :=
  py_or (filesize f) (filesize_approx f).

(** [f"{video_id}"] where [video_id = info_dict.get('id', None)]. *)
Definition str_id (video_id : option string) : string :=
  default "None" video_id.

(** [f.get('height')] as a condition: present and not zero. *)
Definition truthy (h : option Z) : bool :=
  match h with Some n => negb (n =? 0) | None => false end.

(** The filter of the list comprehension on line 71. *)
Definition is_video_candidate (f : format_desc) : bool :=
  bool_decide (vcodec f ≠ Some "none")
  && bool_decide (ext f = Some "mp4")
  && truthy (height f).

(** [key=lambda x: x.get('height', 0)]. *)
Definition height_key (f : format_desc) : Z := default 0 (height f).

(** [sorted(l, key=key, reverse=True)]. Python's sort is stable, also
    with [reverse=True]: items with equal keys keep the order they had in
    [l]. A stable sort has one possible result ([stable_sort_unique]
    below), so any stable descending sort is a faithful model; insertion
    of each item before the first item whose key is not larger is the one
    used here. *)
Section Sorted.
Context {A : Type} (key : A → Z).

Fixpoint insert_desc (x : A) (l : list A) : list A :=
  match l with
  | [] => [x]
  | y :: l' => if key x <? key y then y :: insert_desc x l' else x :: y :: l'
  end.

Definition sorted_desc (l : list A) : list A := foldr insert_desc [] l.

(** [a] may stand before [b] in a descending order. *)
Definition desc (a b : A) : Prop := key b ≤ key a.

End Sorted.

Definition video_formats (formats : list format_desc) : list format_desc :=
  sorted_desc height_key (filter (λ f, is_video_candidate f = true) formats).

Definition video_label (h : Z) (size : string) : string :=
  "🎬 " +:+ str_Z h +:+ "p " +:+ size.

Definition video_token (video_id : string) (h : Z) : string :=
  "video:" +:+ video_id +:+ ":" +:+ str_Z h.

Definition audio_label (size : string) : string :=
  "🎵 Audio " +:+ size.

Definition audio_token (video_id : string) (fid : string) : string :=
  "audio:" +:+ video_id +:+ ":" +:+ fid.

(** The state of the loop of lines 76-82: [added_resolutions] and the
    rows appended to [keyboard] so far. *)
Definition loop_state : Type := gset Z * list (list button).

(** One iteration of the loop. *)
Definition video_step (video_id : option string) (st : loop_state)
    (f : format_desc) : result loop_state :=
  let '(added_resolutions, keyboard) := st in
  match height f with
  | Some h =>
      if truthy (Some h) && bool_decide (h ∉ added_resolutions) then
        rbind (format_size (file_size f)) (λ size,
          Ok ({[h]} ∪ added_resolutions,
              keyboard ++ [[Button (video_label h size)
                                   (video_token (str_id video_id) h)]]))
      else Ok st
  | None => Ok st
  end.

Fixpoint for_each {S X} (step : S → X → result S) (st : S) (l : list X)
    : result S :=
  match l with
  | [] => Ok st
  | x :: l' => rbind (step st x) (λ st', for_each step st' l')
  end.

(** Lines 70-82: the rows of video buttons. *)
Definition video_buttons (video_id : option string)
    (formats : list format_desc) : result (list (list button)) :=
  rbind (for_each (video_step video_id) (∅, []) (video_formats formats))
        (λ st, Ok st.2).

(** The condition of the generator on line 85. *)
Definition audio_exts : list string := ["m4a"; "webm"; "mp3"].

Definition is_audio_candidate (f : format_desc) : bool :=
  bool_decide (acodec f ≠ Some "none")
  && bool_decide (vcodec f = Some "none")
  && match ext f with
     | Some e => bool_decide (e ∈ audio_exts)
     | None => false
     end.

(** [next((f for f in reversed(formats) if ...), None)]. *)
Definition best_audio (formats : list format_desc) : option format_desc :=
  List.find is_audio_candidate (rev formats).

(** Lines 86-88: the rows the audio step appends. A descriptor that
    passed the filter is a non-empty dictionary, so [if best_audio:] is
    the test for [None]. *)
Definition audio_buttons (video_id : option string)
    (formats : list format_desc) : result (list (list button)) :=
  match best_audio formats with
  | Some f =>
      rbind (format_size (file_size f)) (λ size,
        Ok [[Button (audio_label size)
                    (audio_token (str_id video_id) (format_id f))]])
  | None => Ok []
  end.

(** The whole [keyboard] as it stands on line 90. *)
Definition build_keyboard (video_id : option string)
    (formats : list format_desc) : result (list (list button)) :=
  rbind (video_buttons video_id formats) (λ kv,
  rbind (audio_buttons video_id formats) (λ ka,
    Ok (kv ++ ka))).

End Link.

(** * The world the handlers run in *)

(** The options handed to [yt_dlp.YoutubeDL] by the Selection Handler. *)
Record ydl_opts : Type := YdlOpts {
  opt_format : string;
  opt_outtmpl : string;
  opt_quiet : bool;
  opt_noplaylist : bool;
  opt_merge_output_format : string
}.

(** What [extract_info] returns, as far as the handler reads it. *)
Record info_dict : Type := InfoDict {
  info_title : option string;
  info_thumbnail : option string;
  info_id : option string;
  info_formats : option (list format_desc)
}.

(** The calls a handler makes to its collaborators. *)
Inductive call : Type :=
  | ReplyText (msg : string)                 (* update.message.reply_text *)
  | EditText (msg : string)                  (* processing_message.edit_text *)
  | DeleteMessage                            (* <message>.delete *)
  | ReplyPhoto (photo caption : string) (markup : list (list button))
  | ReplyTextMarkup (caption : string) (markup : list (list button))
  | ExtractInfo (url : string)               (* ydl.extract_info(url, download=False) *)
  | Answer                                   (* query.answer *)
  | EditCaption (caption : string) (markdown_v2 : bool)
  | Download (opts : ydl_opts) (url : string) (* ydl.download([url]) *)
  | SendAudio (chat_id : Z) (path title : string)
  | SendVideo (chat_id : Z) (path caption : string).

(** The collaborators. Each answer may depend on the calls made so far.
    - [transport]: [None] when the chat transport performs the call,
      [Some msg] when it raises (a transport error, never a
      [DownloadError]);
    - [extract_info]: the metadata, or the exception raised;
    - [download]: which local files exist when [ydl.download] comes back,
      and the exception it raised, if any. *)
Record oracle : Type := Oracle {
  transport : list call → call → option string;
  extract_info : list call → string → result info_dict;
  download : list call → ydl_opts → string → gset string
             → gset string * option exn
}.

Record world : Type := World {
  files : gset string;                 (* the local files that exist *)
  user_data : gmap string string;      (* context.user_data *)
  calls : list call                    (* history, oldest first *)
}.

(** State and exceptions: a computation returns a result and the world it
    leaves, also when it raises. *)
Definition M (A : Type) : Type := world → result A * world.

Definition ret {A} (a : A) : M A := λ w, (Ok a, w).
Definition raise {A} (e : exn) : M A := λ w, (Raise e, w).
Definition bind {A B} (m : M A) (k : A → M B) : M B :=
  λ w, match m w with
       | (Ok a, w') => k a w'
       | (Raise e, w') => (Raise e, w')
       end.
Definition lift {A} (r : result A) : M A := λ w, (r, w).

Declare Scope handler_scope.
Delimit Scope handler_scope with handler.
Notation "x ← m ; k" := (bind m (λ x, k))
  (at level 20, m at level 100, k at level 200, only parsing) : handler_scope.
Notation "m ;; k" := (bind m (λ _, k))
  (at level 100, k at level 200, right associativity, only parsing) : handler_scope.

(** [try: body / except Exception as e: handler(e)]. An exception raised
    by the handler itself is not caught. *)
Definition try_except {A} (body : M A) (handler : exn → M A) : M A :=
  λ w, match body w with
       | (Ok a, w') => (Ok a, w')
       | (Raise e, w') => handler e w'
       end.

(** [try: body / finally: cleanup]. The cleanup runs whatever the body
    did; the body's outcome stands unless the cleanup raises. *)
Definition try_finally {A} (body : M A) (cleanup : M unit) : M A :=
  λ w, match body w with
       | (r, w') =>
           match cleanup w' with
           | (Ok _, w'') => (r, w'')
           | (Raise e, w'') => (Raise e, w'')
           end
       end.

Definition record_call (c : call) (w : world) : world :=
  World (files w) (user_data w) (calls w ++ [c]).

(** A call to the chat transport. *)
Definition tg (o : oracle) (c : call) : M unit :=
  λ w, match transport o (calls w) c with
       | None => (Ok (), record_call c w)
       | Some msg => (Raise (OtherException msg), record_call c w)
       end.

Definition call_extract_info (o : oracle) (url : string) : M info_dict :=
  λ w, (extract_info o (calls w) url, record_call (ExtractInfo url) w).

Definition call_download (o : oracle) (opts : ydl_opts) (url : string) : M unit :=
  λ w, let '(files', err) := download o (calls w) opts url (files w) in
       let w' := World files' (user_data w) (calls w ++ [Download opts url]) in
       match err with
       | None => (Ok (), w')
       | Some e => (Raise e, w')
       end.

(** [context.user_data[key] = value]. *)
Definition set_user_data (key value : string) : M unit :=
  λ w, (Ok (), World (files w) (<[key := value]> (user_data w)) (calls w)).

(** [context.user_data.get(key, dflt)]. *)
Definition get_user_data (key dflt : string) : M string :=
  λ w, (Ok (default dflt (user_data w !! key)), w).

(** [open(path, 'rb')]. *)
Definition open_rb (path : string) : M unit :=
  λ w, if bool_decide (path ∈ files w) then (Ok (), w)
       else (Raise FileNotFoundError, w).

(** [os.path.exists(path)] and [os.remove(path)] on a regular file. *)
Definition path_exists (path : string) : M bool :=
  λ w, (Ok (bool_decide (path ∈ files w)), w).
Definition os_remove (path : string) : M unit :=
  λ w, (Ok (), World (files w ∖ {[path]}) (user_data w) (calls w)).

(** * Strings as the handlers use them *)

(** [s.split(sep)] for a one-character separator: every occurrence splits,
    and the result always has at least one field. *)
Fixpoint split_on (sep : ascii) (s : string) : list string :=
  match s with
  | EmptyString => [EmptyString]
  | String c s' =>
      if Ascii.eqb c sep then EmptyString :: split_on sep s'
      else match split_on sep s' with
           | field :: fields => String c field :: fields
           | [] => [String c EmptyString]
           end
  end.

(** [s.lower()] on ASCII letters; other bytes are kept. *)
Definition lower_char (c : ascii) : ascii :=
  let n := nat_of_ascii c in
  if (65 <=? n)%nat && (n <=? 90)%nat then ascii_of_nat (n + 32) else c.

Fixpoint lower (s : string) : string :=
  match s with
  | EmptyString => EmptyString
  | String c s' => String (lower_char c) (lower s')
  end.

(** [pat in s]: [pat] occurs in [s] as a substring. *)
Fixpoint contains (pat s : string) : bool :=
  if String.prefix pat s then true
  else match s with
       | EmptyString => false
       | String _ s' => contains pat s'
       end.

(** [s.endswith(suffix)]. *)
Definition ends_with (suffix s : string) : bool :=
  let n := String.length s in
  let k := String.length suffix in
  (k <=? n)%nat && String.eqb (String.substring (n - k) k s) suffix.

(** * The Link Handler: [url_handler] *)

Module LinkHandler.
Import Helpers Link.
Local Open Scope handler_scope.

Definition msg_processing : string := "⏳ Processing link...".
Definition msg_no_formats : string :=
  "Sorry, no suitable download formats were found.".
Definition msg_unavailable : string :=
  "❌ Failed: This video is private, has been deleted, or is unavailable.".
Definition msg_invalid_url : string :=
  "❌ This doesn't look like a valid link. Please try again.".
Definition msg_unsupported : string :=
  "❌ Failed to process the link. The video may be region-locked or unsupported.".
Definition msg_unexpected : string :=
  "❌ An unexpected error occurred. Please try again later.".

(** The three causes told apart on lines 105-111. *)
Inductive cause : Type := Unavailable | InvalidUrl | OtherCause.

Definition classify (msg : string) : cause :=
  let error_str := lower msg in
  if contains "video unavailable" error_str || contains "private video" error_str
  then Unavailable
  else if contains "is not a valid url" error_str then InvalidUrl
  else OtherCause.

Definition cause_message (c : cause) : string :=
  match c with
  | Unavailable => msg_unavailable
  | InvalidUrl => msg_invalid_url
  | OtherCause => msg_unsupported
  end.

(** The two [except] clauses of lines 103-114. *)
Definition on_error (o : oracle) (e : exn) : M unit :=
  match e with
  | DownloadError msg => tg o (EditText (cause_message (classify msg)))
  | _ => tg o (EditText msg_unexpected)
  end.

(** [if thumbnail_url:]. *)
Definition nonempty (s : option string) : option string :=
  match s with
  | Some EmptyString | None => None
  | Some t => Some t
  end.

(** Lines 56-101, the body of the [try]. *)
Definition resolve (o : oracle) (url : string) : M unit :=
  info ← call_extract_info o url;
  let title := default "No Title" (info_title info) in
  set_user_data "video_title" title;;
  let thumbnail_url := info_thumbnail info in
  let video_id := info_id info in
  let formats := default [] (info_formats info) in
  keyboard ← lift (build_keyboard video_id formats);
  match keyboard with
  | [] => tg o (EditText msg_no_formats)
  | _ =>
      let caption := "*" +:+ escape_markdown_v2 title +:+ "*" in
      tg o DeleteMessage;;
      match nonempty thumbnail_url with
      | Some photo => tg o (ReplyPhoto photo caption keyboard)
      | None => tg o (ReplyTextMarkup caption keyboard)
      end
  end.

Definition url_handler (o : oracle) (url : string) : M unit :=
  tg o (ReplyText msg_processing);;
  try_except (resolve o url) (on_error o).

End LinkHandler.

(** * The Selection Handler: [download_button_callback] *)

Module SelectionHandler.
Local Open Scope handler_scope.

Definition colon : ascii := ":"%char.

(** [download_type, video_id, quality_or_id = query.data.split(':')]:
    unpacking raises [ValueError] unless there are exactly three fields. *)
Definition parse_token (data : string) : result (string * string * string) :=
  match split_on colon data with
  | [download_type; video_id; quality_or_id] =>
      Ok (download_type, video_id, quality_or_id)
  | _ => Raise ValueError
  end.

Definition watch_url (video_id : string) : string :=
  "https://www.youtube.com/watch?v=" +:+ video_id.

(** Line 125. *)
Definition file_path (from_user_id : Z) (download_type video_id : string)
    : string :=
  str_Z from_user_id +:+ "_" +:+ video_id +:+ "." +:+
  (if String.eqb download_type "audio" then "m4a" else "mp4").

(** Lines 132-135. *)
Definition download_format (download_type quality_or_id : string) : string :=
  if String.eqb download_type "video" then
    let height := quality_or_id in
    "bestvideo[height<=" +:+ height +:+ "][ext=mp4]+bestaudio[ext=m4a]/best[height<="
      +:+ height +:+ "][ext=mp4]/best"
  else quality_or_id.

(** Lines 137-143. *)
Definition make_opts (download_format file_path : string) : ydl_opts :=
  YdlOpts download_format file_path true true "mp4".

Definition msg_preparing : string := "⏳ Preparing download...".
Definition msg_uploading : string := "🚀 Uploading to Telegram...".
Definition msg_download_failed : string :=
  "❌ *Download Failed*\n\nThis could be due to a YouTube error or a protected video\.".
Definition msg_unexpected_caption : string :=
  "❌ *An Unexpected Error Occurred*\n\nPlease try again later\.".

(** Lines 146-160, the body of the [try]. *)
Definition fetch_and_upload (o : oracle) (chat_id : Z)
    (download_type url path : string) (opts : ydl_opts) : M unit :=
  call_download o opts url;;
  tg o (EditCaption msg_uploading false);;
  title ← get_user_data "video_title" "video";
  open_rb path;;
  (if String.eqb download_type "audio"
   then tg o (SendAudio chat_id path title)
   else tg o (SendVideo chat_id path title));;
  tg o DeleteMessage.

(** The two [except] clauses of lines 162-169. *)
Definition on_failure (o : oracle) (e : exn) : M unit :=
  match e with
  | DownloadError _ => tg o (EditCaption msg_download_failed true)
  | _ => tg o (EditCaption msg_unexpected_caption true)
  end.

(** The [finally] clause of lines 171-174. *)
Definition cleanup (path : string) : M unit :=
  present ← path_exists path;
  if present then os_remove path else ret ().

Definition download_button_callback (o : oracle) (data : string)
    (from_user_id chat_id : Z) : M unit :=
  tg o Answer;;
  fields ← lift (parse_token data);
  let '(download_type, video_id, quality_or_id) := fields in
  let url := watch_url video_id in
  let path := file_path from_user_id download_type video_id in
  try_except (tg o (EditCaption msg_preparing false)) (λ _, ret ());;
  let opts := make_opts (download_format download_type quality_or_id) path in
  try_finally
    (try_except (fetch_and_upload o chat_id download_type url path opts)
                (on_failure o))
    (cleanup path).

End SelectionHandler.

(** * Definitions used to state the properties *)

(** The reader's side of the escaping: a backslash followed by a character
    of the punctuation set stands for that character; anything else stands
    for itself. *)
Fixpoint unescape (s : string) : string :=
  match s with
  | EmptyString => EmptyString
  | String c rest =>
      match rest with
      | String d rest' =>
          if Ascii.eqb c Helpers.backslash && Helpers.char_in d Helpers.escape_chars
          then String d (unescape rest')
          else String c (unescape rest)
      | EmptyString => String c EmptyString
      end
  end.

(** The punctuation set, one character at a time. *)
Definition punctuation : list ascii :=
  ["_"; "*"; "["; "]"; "("; ")"; "~"; "`"; ">"; "#"; "+"; "-"; "="; "|";
   "{"; "}"; "."; "!"]%char.

Fixpoint count_chars (P : ascii → bool) (s : string) : nat :=
  match s with
  | EmptyString => 0%nat
  | String c rest => ((if P c then 1 else 0) + count_chars P rest)%nat
  end.

(** The formats a deduplicating pass over [l] keeps: the first of each
    truthy height not seen before. *)
Fixpoint first_per_height (seen : gset Z) (l : list format_desc)
    : list format_desc :=
  match l with
  | [] => []
  | f :: l' =>
      match height f with
      | Some h =>
          if Link.truthy (Some h) && bool_decide (h ∉ seen)
          then f :: first_per_height ({[h]} ∪ seen) l'
          else first_per_height seen l'
      | None => first_per_height seen l'
      end
  end.

(** The row of the keyboard made for a format of height [h] whose size
    prints as [size]. *)
Definition video_row (video_id : option string) (h : Z) (size : string)
    : list button :=
  [Button (Link.video_label h size) (Link.video_token (Link.str_id video_id) h)].

(** A row of the keyboard is the button made for the format [f]. *)
Definition row_for (video_id : option string) (row : list button)
    (f : format_desc) : Prop :=
  ∃ size,
    Helpers.format_size (Link.file_size f) = Ok size ∧
    row = video_row video_id (Link.height_key f) size.

Definition no_colon (s : string) : Prop :=
  Helpers.char_in SelectionHandler.colon s = false.

(** Reading a yt-dlp format selector: the alternatives separated by [/],
    tried in order, and the bracketed filters of one alternative. *)
Definition selector_tiers (selector : string) : list string :=
  split_on "/"%char selector.

Fixpoint tier_filters_aux (inside : option string) (s : string) : list string :=
  match s with
  | EmptyString => []
  | String c rest =>
      match inside with
      | None =>
          if Ascii.eqb c "["%char then tier_filters_aux (Some EmptyString) rest
          else tier_filters_aux None rest
      | Some acc =>
          if Ascii.eqb c "]"%char then acc :: tier_filters_aux None rest
          else tier_filters_aux (Some (acc +:+ String c EmptyString)) rest
      end
  end.

Definition tier_filters (tier : string) : list string :=
  tier_filters_aux None tier.

(** An alternative constrains the container when one of its filters is on
    [ext]. *)
Definition constrains_container (tier : string) : bool :=
  existsb (String.prefix "ext") (tier_filters tier).

(** The selector as the specification words it: the merge of best video at
    the height in mp4 with best audio in m4a, then best at the height in
    any container, then best. *)
Definition selector_as_specified (selector height : string) : Prop :=
  ∃ merged at_height,
    selector_tiers selector = [merged; at_height; "best"] ∧
    merged = "bestvideo[height<=" +:+ height +:+ "][ext=mp4]+bestaudio[ext=m4a]" ∧
    ("height<=" +:+ height) ∈ tier_filters at_height ∧
    constrains_container at_height = false.

(** The three alternatives the handler writes for a video of height
    [height], in the order it writes them. *)
Definition merged_tier (height : string) : string :=
  "bestvideo[height<=" +:+ height +:+ "][ext=mp4]+bestaudio[ext=m4a]".
Definition single_file_tier (height : string) : string :=
  "best[height<=" +:+ height +:+ "][ext=mp4]".
Definition last_tier : string := "best".

Definition is_digit_or_minus (c : ascii) : bool :=
  Helpers.char_in c "0123456789-".

Definition initial_world (fs : gset string) (ud : gmap string string) : world :=
  World fs ud [].

(** A computation that leaves the local files alone and only adds to the
    history of calls. *)
Definition steady {A} (m : M A) : Prop :=
  ∀ w, files (m w).2 = files w ∧
       user_data (m w).2 = user_data w ∧
       ∃ later, calls (m w).2 = calls w ++ later.


(** A call that carries a button grid. *)
Definition sends_grid (c : call) : bool :=
  match c with
  | ReplyPhoto _ _ _ | ReplyTextMarkup _ _ => true
  | _ => false
  end.

(** ** Sample data *)

Definition fmt_v (h : Z) (sz : option Z) (fid : string) : format_desc :=
  FormatDesc (Some "avc1") (Some "none") (Some "mp4") (Some h) sz None fid.
Definition fmt_a (e : string) (sz : option Z) (fid : string) : format_desc :=
  FormatDesc (Some "none") (Some "mp4a") (Some e) None sz None fid.

Definition sample_formats : list format_desc :=
  [ fmt_a "m4a" (Some 3000000) "139";
    fmt_v 360 (Some 10000000) "134";
    fmt_v 720 None "136";
    fmt_v 360 (Some 20000000) "18";
    fmt_a "webm" (Some 4000000) "251";
    fmt_v 720 (Some 50000000) "22";
    fmt_v 1080 (Some 90000000) "137" ].

(** A collaborator that never fails: the transport performs every call,
    extraction returns [info], and the download writes the file named by
    [outtmpl]. *)
Definition cooperative (info : info_dict) : oracle :=
  Oracle (λ _ _, None)
         (λ _ _, Ok info)
         (λ _ opts _ fs, ({[opt_outtmpl opts]} ∪ fs, None)).

(** A transport that refuses every call after the first [k], an
    extraction that raises [e_extract] and a download that leaves a
    partial file behind and raises [e_download]. *)
Definition hostile (k : nat) (e_extract e_download : exn) : oracle :=
  Oracle (λ history _, if (length history <? k)%nat then None else Some "timed out")
         (λ _ _, Raise e_extract)
         (λ _ opts _ fs, ({[opt_outtmpl opts]} ∪ fs, Some e_download)).

(** An audio-only stream of two tebibytes. *)
Definition oversize_audio : format_desc :=
  fmt_a "m4a" (Some (2 ^ 41)) "140".

Definition sample_video_rows : list (list button) :=
  [ [Button "🎬 1080p (85.83 MB)" "video:abc123:1080"];
    [Button "🎬 720p " "video:abc123:720"];
    [Button "🎬 360p (9.54 MB)" "video:abc123:360"] ].

(** A link whose only format is the two-tebibyte audio stream. *)
Definition oversize_info : info_dict :=
  InfoDict (Some "Long stream") None (Some "abc123") (Some [oversize_audio]).

(** A link whose video has a title and no format at all. *)
Definition bare_info : info_dict :=
  InfoDict (Some "Lecture 1") None (Some "abc123") (Some []).

(** The Link Handler run on that link, from an empty session. *)
Definition bare_run : result unit * world :=
  LinkHandler.url_handler (cooperative bare_info) "https://youtu.be/abc123"
    (initial_world ∅ ∅).

Definition sample_info : info_dict :=
  InfoDict (Some "A_title (live).") None (Some "abc123") (Some sample_formats).

(** * Program start-up: the module body and [main] *)

Module Startup.

(** Lines 20-22: [BOT_TOKEN = os.environ.get("TELEGRAM_BOT_TOKEN")], and
    the module refuses to load when it is missing or empty. *)
Definition load_module (environ : gmap string string) : result string :=
  match environ !! "TELEGRAM_BOT_TOKEN" with
  | Some BOT_TOKEN =>
      if bool_decide (BOT_TOKEN = "") then Raise ValueError else Ok BOT_TOKEN
  | None => Raise ValueError
  end.

(** The handlers [main] registers, in the order it registers them. *)
Inductive registration : Type :=
  | OnCommand (name : string)      (* CommandHandler("start", start_command) *)
  | OnPlainText                    (* MessageHandler(TEXT & ~COMMAND, url_handler) *)
  | OnCallbackQuery.               (* CallbackQueryHandler(download_button_callback) *)

(** The two ways out of [main]: the early return of lines 178-180, or the
    application built with the token and the handlers and left polling. *)
Inductive main_outcome : Type :=
  | TokenNotSet
  | Polling (token : string) (handlers : list registration).

Definition main (BOT_TOKEN : string) : main_outcome :=
  if bool_decide (BOT_TOKEN = "") then TokenNotSet
  else Polling BOT_TOKEN [OnCommand "start"; OnPlainText; OnCallbackQuery].

(** Running the file as a script: the module body, then [main]. *)
Definition script (environ : gmap string string) : result main_outcome :=
  rbind (load_module environ) (λ BOT_TOKEN, Ok (main BOT_TOKEN)).

End Startup.

(** * Further definitions used to state properties *)

(** A computation that leaves one component of the world as it found it. *)
Definition preserves {A B} (proj : world → B) (m : M A) : Prop :=
  ∀ w, proj (m w).2 = proj w.

(** The exception [e] is the refusal by the transport of the last call in
    the history of [w]. *)
Definition refused (o : oracle) (w : world) (e : exn) : Prop :=
  ∃ before c msg,
    calls w = before ++ [c] ∧
    transport o before c = Some msg ∧
    e = OtherException msg.

(** Lines 53-54 read [update.message.text] and reply to [update.message]
    before the [try]. An update that carries no message (an edited
    message, for one) makes line 53 raise [AttributeError], a subclass of
    [Exception], before any call is made. *)
Definition attribute_error : exn :=
  OtherException "'NoneType' object has no attribute 'text'".

(** The Link Handler on an update, [message] being the text of
    [update.message] when the update has one. *)
Definition url_handler_on (o : oracle) (message : option string) : M unit :=
  match message with
  | Some url => LinkHandler.url_handler o url
  | None => raise attribute_error
  end.

(** The text an [except] clause of the Link Handler shows for [e]. *)
Definition failure_text (e : exn) : string :=
  match e with
  | DownloadError msg => LinkHandler.cause_message (LinkHandler.classify msg)
  | _ => LinkHandler.msg_unexpected
  end.

(** A transport that refuses the uploads and performs every other call,
    with a download that writes its file. *)
Definition upload_refusing : oracle :=
  Oracle (λ _ c, match c with
                 | SendAudio _ _ _ | SendVideo _ _ _ => Some "timed out"
                 | _ => None
                 end)
         (λ _ _, Raise ValueError)
         (λ _ opts _ fs, ({[opt_outtmpl opts]} ∪ fs, None)).

(** A transport that performs every call. *)
Definition cooperates (o : oracle) : Prop :=
  ∀ history c, transport o history c = None.

(** An upload, if [c] is one, goes to [chat_id] and carries [title]. *)
Definition upload_labelled (chat_id : Z) (title : string) (c : call) : Prop :=
  match c with
  | SendAudio ch _ t | SendVideo ch _ t => ch = chat_id ∧ t = title
  | _ => True
  end.

(** The caption the Selection Handler shows for the exception [e]. *)
Definition failure_caption (e : exn) : string :=
  match e with
  | DownloadError _ => SelectionHandler.msg_download_failed
  | _ => SelectionHandler.msg_unexpected_caption
  end.

(** The upload call for a kind of download. *)
Definition upload_call (download_type : string) (chat_id : Z)
    (path title : string) : call :=
  if String.eqb download_type "audio" then SendAudio chat_id path title
  else SendVideo chat_id path title.

Definition is_colon (c : ascii) : bool := Ascii.eqb c SelectionHandler.colon.

(** A collaborator whose download returns without an error and without
    having written anything. *)
Definition forgetful : oracle :=
  Oracle (λ _ _, None) (λ _ _, Raise ValueError) (λ _ _ _ fs, (fs, None)).

(** * Facts about strings *)

Lemma app_cons (c : ascii) (s t : string) :
  String c s +:+ t = String c (s +:+ t).
Proof. reflexivity. Qed.

Lemma app_empty_l (t : string) : "" +:+ t = t.
Proof. reflexivity. Qed.

Lemma app_empty_r (s : string) : s +:+ "" = s.
Proof. induction s as [|c s IH]; [reflexivity|]. by rewrite app_cons, IH. Qed.

Lemma app_assoc_str (s t u : string) : (s +:+ t) +:+ u = s +:+ (t +:+ u).
Proof.
  induction s as [|c s IH]; [reflexivity|]. by rewrite !app_cons, IH.
Qed.

Lemma app_length_str (s t : string) :
  String.length (s +:+ t) = (String.length s + String.length t)%nat.
Proof.
  induction s as [|c s IH]; [reflexivity|].
  rewrite app_cons. simpl. by rewrite IH.
Qed.

Lemma substring_all (t : string) : String.substring 0 (String.length t) t = t.
Proof. induction t as [|d t IH]; simpl; [done|]. by rewrite IH. Qed.

Lemma ends_with_app (pre suffix : string) :
  ends_with suffix (pre +:+ suffix) = true.
Proof.
  unfold ends_with. rewrite app_length_str.
  apply andb_true_iff. split; [apply Nat.leb_le; lia|].
  replace (String.length pre + String.length suffix - String.length suffix)%nat
    with (String.length pre) by lia.
  apply String.eqb_eq.
  induction pre as [|c pre IH].
  - apply substring_all.
  - rewrite app_cons. exact IH.
Qed.

(** * Properties of the formatting helpers *)

Section FormatSize.
Import Helpers.

Lemma pow_1024 (i : Z) : 0 ≤ i → 1024 ^ i = 2 ^ (10 * i).
Proof. intros Hi. rewrite Z.pow_mul_r by lia. reflexivity. Qed.

(** [log1024_floor n] is the floor of the base-1024 logarithm of [n]. *)
Lemma log1024_floor_spec (n : Z) :
  1 ≤ n →
  0 ≤ log1024_floor n ∧
  1024 ^ log1024_floor n ≤ n < 1024 ^ (log1024_floor n + 1).
Proof.
  intros Hn. unfold log1024_floor.
  pose proof (Z.log2_nonneg n) as Hk.
  destruct (Z.log2_spec n ltac:(lia)) as [Hlo Hhi].
  set (k := Z.log2 n) in *.
  assert (Hi : 0 ≤ k / 10) by (apply Z.div_pos; lia).
  pose proof (Z.mul_div_le k 10 ltac:(lia)) as Hle.
  pose proof (Z.mul_succ_div_gt k 10 ltac:(lia)) as Hgt.
  split; [exact Hi|]. rewrite !pow_1024 by lia. split.
  - etrans; [|exact Hlo]. apply Z.pow_le_mono_r; lia.
  - eapply Z.lt_le_trans; [exact Hhi|]. apply Z.pow_le_mono_r; lia.
Qed.

Lemma log1024_floor_unique (n j : Z) :
  0 ≤ j → 1024 ^ j ≤ n < 1024 ^ (j + 1) → log1024_floor n = j.
Proof.
  intros Hj [Hlo Hhi].
  assert (Hn : 1 ≤ n).
  { pose proof (Z.pow_pos_nonneg 1024 j ltac:(lia) Hj). lia. }
  destruct (log1024_floor_spec n Hn) as (Hi & Hlo' & Hhi').
  set (i := log1024_floor n) in *.
  destruct (Z.lt_trichotomy i j) as [Hlt | [Heq | Hgt]]; [|exact Heq|].
  - assert (1024 ^ (i + 1) ≤ 1024 ^ j) by (apply Z.pow_le_mono_r; lia). lia.
  - assert (1024 ^ (j + 1) ≤ 1024 ^ i) by (apply Z.pow_le_mono_r; lia). lia.
Qed.

Lemma log1024_floor_small (n : Z) :
  1 ≤ n → n < 1024 ^ 4 → 0 ≤ log1024_floor n ≤ 3.
Proof.
  intros Hn Hlt. destruct (log1024_floor_spec n Hn) as (Hi & Hlo & _).
  split; [exact Hi|].
  destruct (Z.le_gt_cases 4 (log1024_floor n)) as [Hge|]; [|lia].
  assert (1024 ^ 4 ≤ 1024 ^ log1024_floor n) by (apply Z.pow_le_mono_r; lia).
  lia.
Qed.

Lemma log1024_floor_large (n : Z) :
  1024 ^ 4 ≤ n → 4 ≤ log1024_floor n.
Proof.
  intros Hge.
  assert (Hn : 1 ≤ n) by (change (1024 ^ 4) with 1099511627776 in Hge; lia).
  destruct (log1024_floor_spec n Hn) as (Hi & _ & Hhi).
  destruct (Z.le_gt_cases 4 (log1024_floor n)) as [|Hlt]; [assumption|].
  assert (1024 ^ (log1024_floor n + 1) ≤ 1024 ^ 4)
    by (apply Z.pow_le_mono_r; lia).
  lia.
Qed.

(** [round2 n p] is a nearest number of hundredths to [n / p]. *)
Lemma round2_nearest (n p : Z) :
  0 < p → 2 * Z.abs (100 * n - round2 n p * p) ≤ p.
Proof.
  intros Hp. unfold round2.
  pose proof (Z.div_mod (100 * n) p ltac:(lia)) as Hdm.
  pose proof (Z.mod_pos_bound (100 * n) p Hp) as Hr.
  set (q := 100 * n / p) in *. set (r := (100 * n) mod p) in *.
  repeat case_match;
    repeat match goal with
           | H : (_ <? _) = true |- _ => apply Z.ltb_lt in H
           | H : (_ <? _) = false |- _ => apply Z.ltb_ge in H
           end; nia.
Qed.

Lemma size_name_lookup (i : Z) :
  0 ≤ i ≤ 3 → ∃ u, size_name !! Z.to_nat i = Some u ∧ u ∈ size_name.
Proof.
  intros Hi.
  assert (Hc : i = 0 ∨ i = 1 ∨ i = 2 ∨ i = 3) by lia. clear Hi.
  destruct Hc as [-> | [-> | [-> | ->]]];
    simpl; eexists; (split; [reflexivity|]); set_solver.
Qed.

Lemma format_size_unfold (n : Z) :
  1 ≤ n →
  format_size (Some n) =
  match size_name !! Z.to_nat (log1024_floor n) with
  | Some u =>
      Ok ("(" +:+ str_float2 (round2 n (1024 ^ log1024_floor n)) +:+ " " +:+ u +:+ ")")
  | None => Raise IndexError
  end.
Proof.
  intros Hn. unfold format_size.
  destruct (Z.eqb_spec n 0); [lia|]. destruct (Z.ltb_spec n 0); [lia|].
  reflexivity.
Qed.

(** What [format_size] returns on the byte counts it handles: the value
    to two decimals and the unit of the magnitude, in parentheses. *)
Lemma format_size_below_tebibyte (n : Z) :
  0 < n → n < 1024 ^ 4 →
  ∃ i u,
    0 ≤ i ≤ 3 ∧ 1024 ^ i ≤ n < 1024 ^ (i + 1) ∧
    size_name !! Z.to_nat i = Some u ∧
    2 * Z.abs (100 * n - round2 n (1024 ^ i) * 1024 ^ i) ≤ 1024 ^ i ∧
    format_size (Some n) =
      Ok ("(" +:+ str_float2 (round2 n (1024 ^ i)) +:+ " " +:+ u +:+ ")") ∧
    ∀ s, format_size (Some n) = Ok s → ends_with (u +:+ ")") s = true.
Proof.
  intros Hpos Hlt.
  destruct (log1024_floor_spec n ltac:(lia)) as (Hi & Hbounds).
  pose proof (log1024_floor_small n ltac:(lia) Hlt) as Hsmall.
  destruct (size_name_lookup _ Hsmall) as (u & Hu & _).
  exists (log1024_floor n), u.
  assert (Hfs : format_size (Some n) =
    Ok ("(" +:+ str_float2 (round2 n (1024 ^ log1024_floor n)) +:+ " " +:+ u +:+ ")")).
  { rewrite format_size_unfold by lia. by rewrite Hu. }
  repeat split; try tauto; try lia; try assumption.
  - apply round2_nearest. apply Z.pow_pos_nonneg; lia.
  - intros s Hs. rewrite Hfs in Hs. injection Hs as <-.
    set (v := str_float2 _).
    replace ("(" +:+ v +:+ " " +:+ u +:+ ")")
      with (("(" +:+ v +:+ " ") +:+ (u +:+ ")"))
      by (by rewrite !app_assoc_str).
    apply ends_with_app.
Qed.

(** C10: [format_size] returns a string exactly on the positive byte
    counts whose magnitude index is at most 3. The unit table has four
    entries; for [1 <= size_bytes < 1024^4] the index is between 0 and 3
    and the lookup succeeds; for [size_bytes >= 1024^4] the index is at
    least 4, the lookup is out of range and the function raises
    [IndexError]. *)
Theorem format_size_defined_iff_index_in_table (size_bytes : Z) :
  1 ≤ size_bytes →
  length size_name = 4%nat ∧
  (size_bytes < 1024 ^ 4 →
     0 ≤ log1024_floor size_bytes ≤ 3 ∧
     is_Some (size_name !! Z.to_nat (log1024_floor size_bytes)) ∧
     is_Ok (format_size (Some size_bytes))) ∧
  (1024 ^ 4 ≤ size_bytes →
     4 ≤ log1024_floor size_bytes ∧
     size_name !! Z.to_nat (log1024_floor size_bytes) = None ∧
     format_size (Some size_bytes) = Raise IndexError).
Proof.
  intros Hn. split; [reflexivity|]. split.
  - intros Hlt.
    pose proof (log1024_floor_small _ Hn Hlt) as Hsmall.
    destruct (size_name_lookup _ Hsmall) as (u & Hu & _).
    split; [exact Hsmall|]. split; [by exists u|].
    rewrite format_size_unfold by exact Hn. rewrite Hu. by eexists.
  - intros Hge. pose proof (log1024_floor_large _ Hge) as Hlarge.
    assert (Hnone : size_name !! Z.to_nat (log1024_floor size_bytes) = None).
    { apply lookup_ge_None. simpl. lia. }
    split; [exact Hlarge|]. split; [exact Hnone|].
    rewrite format_size_unfold by exact Hn. by rewrite Hnone.
Qed.

Lemma format_size_defined_iff_index_in_table_witness :
  is_Ok (format_size (Some 1536)) ∧
  format_size (Some (1024 ^ 4)) = Raise IndexError.
Proof.
  split.
  - destruct (format_size_defined_iff_index_in_table 1536 ltac:(lia))
      as (_ & Hin & _).
    apply Hin. reflexivity.
  - destruct (format_size_defined_iff_index_in_table (1024 ^ 4) ltac:(done))
      as (_ & _ & Hout).
    apply Hout. reflexivity.
Defined.

(** C4, at two tebibytes: the input is a positive byte count, and
    [format_size] raises [IndexError] instead of returning a string with a
    unit; on zero and on a missing size it returns the empty string. *)
Theorem format_size_two_tebibytes :
  0 < 2 ^ 41 ∧
  format_size (Some (2 ^ 41)) = Raise IndexError ∧
  format_size (Some 0) = Ok "" ∧
  format_size None = Ok "".
Proof. repeat split. Qed.

End FormatSize.

Section Escape.
Import Helpers.

Lemma char_in_punctuation (c : ascii) :
  char_in c escape_chars = bool_decide (c ∈ punctuation).
Proof. destruct c as [[] [] [] [] [] [] [] []]; vm_compute; reflexivity. Qed.

Lemma escape_cons (c : ascii) (rest : string) :
  escape_markdown_v2 (String c rest) =
  escape_char c +:+ escape_markdown_v2 rest.
Proof. reflexivity. Qed.

Lemma escape_head_not_punctuation (text : string) (d : ascii) (t : string) :
  escape_markdown_v2 text = String d t → char_in d escape_chars = false.
Proof.
  destruct text as [|c rest]; [discriminate|].
  rewrite escape_cons. unfold escape_char.
  destruct (char_in c escape_chars) eqn:Hc;
    rewrite !app_cons, ?app_empty_l; intros [= <- _].
  - reflexivity.
  - exact Hc.
Qed.

Lemma unescape_escape (text : string) :
  unescape (escape_markdown_v2 text) = text.
Proof.
  induction text as [|c rest IH]; [reflexivity|].
  rewrite escape_cons. unfold escape_char.
  destruct (char_in c escape_chars) eqn:Hc.
  - rewrite !app_cons, app_empty_l. cbn [unescape]. rewrite Hc.
    replace (Ascii.eqb backslash backslash) with true by reflexivity.
    cbn [andb]. by rewrite IH.
  - rewrite app_cons, app_empty_l.
    destruct (escape_markdown_v2 rest) as [|d t] eqn:Hrest.
    + destruct rest as [|c' rest']; [reflexivity|].
      rewrite escape_cons in Hrest. unfold escape_char in Hrest.
      destruct (char_in c' escape_chars); discriminate.
    + change (unescape (String c (String d t)))
        with (if Ascii.eqb c backslash && char_in d escape_chars
              then String d (unescape t)
              else String c (unescape (String d t))).
      rewrite (escape_head_not_punctuation _ _ _ Hrest).
      by rewrite andb_false_r, IH.
Qed.

Lemma escape_length (text : string) :
  String.length (escape_markdown_v2 text) =
  (String.length text + count_chars (λ c, char_in c escape_chars) text)%nat.
Proof.
  induction text as [|c rest IH]; [reflexivity|].
  rewrite escape_cons. unfold escape_char.
  destruct (char_in c escape_chars) eqn:Hc;
    rewrite !app_cons, app_empty_l; cbn [String.length count_chars];
    rewrite Hc, IH; lia.
Qed.

Lemma escape_app (s t : string) :
  escape_markdown_v2 (s +:+ t) = escape_markdown_v2 s +:+ escape_markdown_v2 t.
Proof.
  induction s as [|c s IH]; [reflexivity|].
  rewrite app_cons, !escape_cons, IH. by rewrite app_assoc_str.
Qed.

(** C7: the escaper works one character at a time and in order. A
    character of the punctuation set becomes a backslash followed by that
    character, any other character is copied; so the output is longer than
    the input by exactly the number of punctuation characters, and
    reading the output back (a backslash before a punctuation character
    stands for it) gives the input. *)
Theorem escape_markdown_v2_spec (text : string) :
  escape_markdown_v2 "" = "" ∧
  (∀ c rest,
     escape_markdown_v2 (String c rest) =
     (if bool_decide (c ∈ punctuation)
      then String backslash (String c (escape_markdown_v2 rest))
      else String c (escape_markdown_v2 rest))) ∧
  (∀ s t, escape_markdown_v2 (s +:+ t) =
          escape_markdown_v2 s +:+ escape_markdown_v2 t) ∧
  String.length (escape_markdown_v2 text) =
    (String.length text + count_chars (λ c, bool_decide (c ∈ punctuation)) text)%nat ∧
  unescape (escape_markdown_v2 text) = text.
Proof.
  split; [reflexivity|]. split; [|split; [exact escape_app|split]].
  - intros c rest. rewrite escape_cons. unfold escape_char.
    rewrite char_in_punctuation. by destruct (bool_decide _).
  - rewrite escape_length. f_equal.
    induction text as [|c rest IH]; [reflexivity|].
    cbn [count_chars]. by rewrite IH, char_in_punctuation.
  - apply unescape_escape.
Qed.

End Escape.

(** * Callback tokens *)

Section Tokens.
Import Helpers Link SelectionHandler.

Lemma char_in_app (c : ascii) (s t : string) :
  char_in c (s +:+ t) = char_in c s || char_in c t.
Proof.
  induction s as [|d s IH]; [reflexivity|].
  rewrite app_cons. simpl. rewrite IH. by destruct (Ascii.eqb c d).
Qed.

Lemma split_on_no_sep (sep : ascii) (s : string) :
  char_in sep s = false → split_on sep s = [s].
Proof.
  induction s as [|c s IH]; [reflexivity|]. simpl.
  rewrite (Ascii.eqb_sym c sep).
  destruct (Ascii.eqb sep c); [discriminate|].
  intros Hs. by rewrite (IH Hs).
Qed.

Lemma split_on_field (sep : ascii) (s t : string) :
  char_in sep s = false →
  split_on sep (s +:+ String sep t) = s :: split_on sep t.
Proof.
  induction s as [|c s IH].
  - intros _. rewrite app_empty_l. simpl. by rewrite Ascii.eqb_refl.
  - rewrite app_cons. simpl. rewrite (Ascii.eqb_sym c sep).
    destruct (Ascii.eqb sep c); [discriminate|].
    intros Hs. by rewrite (IH Hs).
Qed.

Lemma split_on_nonempty (sep : ascii) (s : string) : split_on sep s ≠ [].
Proof.
  destruct s as [|c s]; [done|]. simpl.
  destruct (Ascii.eqb c sep); [done|]. by destruct (split_on sep s).
Qed.

(** A token with colon-free fields parses back into its fields. *)
Lemma parse_token_fields (kind video_id quality : string) :
  no_colon kind → no_colon video_id → no_colon quality →
  parse_token (kind +:+ ":" +:+ video_id +:+ ":" +:+ quality)
  = Ok (kind, video_id, quality).
Proof.
  unfold no_colon, parse_token. intros Hk Hv Hq.
  assert (Hc : ∀ x, ":" +:+ x = String colon x) by reflexivity.
  rewrite !Hc.
  rewrite (split_on_field _ _ _ Hk), (split_on_field _ _ _ Hv).
  by rewrite (split_on_no_sep _ _ Hq).
Qed.

Lemma string_of_uint_no_colon (d : Decimal.uint) :
  char_in colon (NilEmpty.string_of_uint d) = false.
Proof. induction d; simpl; auto. Qed.

Lemma str_Z_no_colon (z : Z) : no_colon (str_Z z).
Proof.
  unfold no_colon, str_Z, NilZero.string_of_int, NilZero.string_of_uint.
  destruct (Z.to_int z) as [d|d]; destruct d; simpl;
    auto using string_of_uint_no_colon.
Qed.

End Tokens.

(** * The order of the video formats *)

Section SortedDesc.
Context {A : Type} (key : A → Z).
Import Link.

Local Abbreviation desc := (desc key).

Lemma insert_desc_perm (x : A) (l : list A) : insert_desc key x l ≡ₚ x :: l.
Proof.
  induction l as [|y l IH]; simpl; [done|].
  destruct (key x <? key y); [|done].
  rewrite IH. apply Permutation_swap.
Qed.

Lemma sorted_desc_perm (l : list A) : sorted_desc key l ≡ₚ l.
Proof.
  induction l as [|x l IH]; simpl; [done|].
  by rewrite insert_desc_perm, IH.
Qed.

Lemma insert_desc_sorted (x : A) (l : list A) :
  StronglySorted desc l → StronglySorted desc (insert_desc key x l).
Proof.
  induction l as [|y l IH]; intros Hs; simpl.
  - by repeat constructor.
  - apply StronglySorted_cons in Hs as [Hall Hs].
    destruct (Z.ltb_spec (key x) (key y)) as [Hlt|Hge].
    + apply StronglySorted_cons. split; [|by apply IH].
      rewrite insert_desc_perm. constructor; [unfold desc; lia|done].
    + apply StronglySorted_cons. split.
      * constructor; [exact Hge|].
        eapply Forall_impl; [exact Hall|]. unfold desc. intros; lia.
      * apply StronglySorted_cons. by split.
Qed.

Lemma sorted_desc_sorted (l : list A) : StronglySorted desc (sorted_desc key l).
Proof.
  induction l as [|x l IH]; simpl; [constructor|].
  by apply insert_desc_sorted.
Qed.

Lemma insert_desc_filter (x : A) (l : list A) (k : Z) :
  filter (λ a, key a = k) (insert_desc key x l)
  = filter (λ a, key a = k) (x :: l).
Proof.
  induction l as [|y l IH]; simpl; [done|].
  destruct (Z.ltb_spec (key x) (key y)) as [Hlt|Hge]; [|done].
  rewrite (filter_cons _ y), IH, !filter_cons.
  repeat case_decide; try done; lia.
Qed.

(** The sort is stable: the items of one key keep their order. *)
Lemma sorted_desc_stable (l : list A) (k : Z) :
  filter (λ a, key a = k) (sorted_desc key l) = filter (λ a, key a = k) l.
Proof.
  induction l as [|x l IH]; simpl; [done|].
  by rewrite insert_desc_filter, !filter_cons, IH.
Qed.

(** Two descending lists with the same items of each key, in the same
    order, are the same list: a stable sort has only one result. *)
Lemma stable_sort_unique (l1 l2 : list A) :
  StronglySorted desc l1 → StronglySorted desc l2 →
  (∀ k, filter (λ a, key a = k) l1 = filter (λ a, key a = k) l2) →
  l1 = l2.
Proof.
  revert l2. induction l1 as [|x l1 IH]; intros [|y l2] Hs1 Hs2 Hf.
  - done.
  - specialize (Hf (key y)). rewrite filter_cons in Hf.
    by rewrite decide_True in Hf.
  - specialize (Hf (key x)). rewrite filter_cons in Hf.
    by rewrite decide_True in Hf.
  - apply StronglySorted_cons in Hs1 as [Hall1 Hs1].
    apply StronglySorted_cons in Hs2 as [Hall2 Hs2].
    assert (Hxy : key x ≤ key y).
    { pose proof (Hf (key x)) as Hk. rewrite (filter_cons _ x) in Hk.
      rewrite decide_True in Hk by done.
      assert (Hin : x ∈ filter (λ a, key a = key x) (y :: l2))
        by (rewrite <- Hk; left).
      apply list_elem_of_filter in Hin as [_ Hin].
      apply elem_of_cons in Hin as [->|Hin]; [lia|].
      rewrite Forall_forall in Hall2. exact (Hall2 _ Hin). }
    assert (Hyx : key y ≤ key x).
    { pose proof (Hf (key y)) as Hk. rewrite (filter_cons _ y) in Hk.
      rewrite decide_True in Hk by done.
      assert (Hin : y ∈ filter (λ a, key a = key y) (x :: l1))
        by (rewrite Hk; left).
      apply list_elem_of_filter in Hin as [_ Hin].
      apply elem_of_cons in Hin as [->|Hin]; [lia|].
      rewrite Forall_forall in Hall1. exact (Hall1 _ Hin). }
    assert (x = y) as <-.
    { pose proof (Hf (key x)) as Hk. rewrite !filter_cons in Hk.
      rewrite !decide_True in Hk by lia. congruence. }
    f_equal. apply IH; [done..|]. intros k. specialize (Hf k).
    rewrite !filter_cons in Hf. case_decide; congruence.
Qed.

End SortedDesc.

(** * The video buttons *)

Section VideoButtons.
Import Helpers Link.
Local Abbreviation desc := (desc height_key).

(** Case analysis on the test [height and height not in added_resolutions]
    for a format of height [h]. *)
Local Ltac case_height h seen Hz Hseen :=
  destruct (Z.eqb_spec h 0) as [Hz|Hz]; cbn [negb andb];
  [|destruct (decide (h ∉ seen)) as [Hseen|Hseen];
    [rewrite (bool_decide_true _ Hseen)|rewrite (bool_decide_false _ Hseen)]].

Lemma first_per_height_elem (seen : gset Z) (l : list format_desc) (f : format_desc) :
  f ∈ first_per_height seen l →
  f ∈ l ∧ height f = Some (height_key f) ∧ height_key f ≠ 0 ∧ height_key f ∉ seen.
Proof.
  revert seen. induction l as [|g l IH]; intros seen; simpl;
    [by intros ?%elem_of_nil|].
  assert (Hrec : ∀ seen', seen ⊆ seen' → f ∈ first_per_height seen' l →
            f ∈ g :: l ∧ height f = Some (height_key f) ∧ height_key f ≠ 0
            ∧ height_key f ∉ seen).
  { intros seen' Hsub Hin. destruct (IH _ Hin) as (? & ? & ? & Hn).
    repeat split; try done; [by right|]. intros ?. apply Hn. by apply Hsub. }
  destruct (height g) as [h|] eqn:Hg; [|by apply Hrec].
  case_height h seen Hz Hseen; try (by apply Hrec).
  intros [->|Hin]%elem_of_cons;
    [|apply (Hrec ({[h]} ∪ seen)); [apply union_subseteq_r|done]].
  unfold height_key. rewrite Hg. simpl. repeat split; try done. by left.
Qed.

Lemma first_per_height_NoDup (seen : gset Z) (l : list format_desc) :
  NoDup (map height_key (first_per_height seen l)).
Proof.
  revert seen. induction l as [|g l IH]; intros seen; simpl; [constructor|].
  destruct (height g) as [h|] eqn:Hg; [|apply IH].
  case_height h seen Hz Hseen; try apply IH.
  simpl. constructor; [|apply IH].
  intros Hin. apply list_elem_of_fmap in Hin as (f & Hkey & Hf).
  apply first_per_height_elem in Hf as (_ & _ & _ & Hn).
  unfold height_key at 1 in Hkey. rewrite Hg in Hkey. simpl in Hkey.
  apply Hn. rewrite <- Hkey. apply elem_of_union_l. by apply elem_of_singleton.
Qed.

Lemma first_per_height_sorted (seen : gset Z) (l : list format_desc) :
  StronglySorted desc l → StronglySorted desc (first_per_height seen l).
Proof.
  revert seen. induction l as [|g l IH]; intros seen Hs; simpl; [constructor|].
  apply StronglySorted_cons in Hs as [Hall Hs].
  destruct (height g) as [h|] eqn:Hg; [|by apply IH].
  case_height h seen Hz Hseen; try (by apply IH).
  apply StronglySorted_cons. split; [|by apply IH].
  apply Forall_forall. intros f Hf.
  apply first_per_height_elem in Hf as (Hf & _).
  rewrite Forall_forall in Hall. by apply Hall.
Qed.

(** A chosen format is the first of its height in the list. *)
Lemma first_per_height_first (seen : gset Z) (l : list format_desc) (f : format_desc) :
  f ∈ first_per_height seen l →
  List.find (λ g, bool_decide (height_key g = height_key f)) l = Some f.
Proof.
  revert seen. induction l as [|g l IH]; intros seen; simpl;
    [by intros ?%elem_of_nil|].
  assert (Hskip : ∀ seen', height_key g ≠ height_key f →
            f ∈ first_per_height seen' l →
            (if bool_decide (height_key g = height_key f) then Some g
             else List.find (λ g0, bool_decide (height_key g0 = height_key f)) l)
            = Some f).
  { intros seen' Hne Hin. rewrite bool_decide_false by done. by eapply IH. }
  destruct (height g) as [h|] eqn:Hg.
  - assert (Hkg : height_key g = h) by (unfold height_key; by rewrite Hg).
    case_height h seen Hz Hseen.
    + intros Hin. apply (Hskip seen); [|done].
      apply first_per_height_elem in Hin as (_ & _ & Hnz & _). lia.
    + intros [->|Hin]%elem_of_cons; [by rewrite bool_decide_true|].
      apply (Hskip ({[h]} ∪ seen)); [|done].
      apply first_per_height_elem in Hin as (_ & _ & _ & Hn).
      intros Heq. apply Hn. rewrite <- Heq, Hkg.
      apply elem_of_union_l. by apply elem_of_singleton.
    + intros Hin. apply (Hskip seen); [|done].
      apply first_per_height_elem in Hin as (_ & _ & _ & Hn).
      intros Heq. apply Hn. rewrite <- Heq, Hkg. by apply dec_stable.
  - assert (Hkg : height_key g = 0) by (unfold height_key; by rewrite Hg).
    intros Hin. apply (Hskip seen); [|done].
    apply first_per_height_elem in Hin as (_ & _ & Hnz & _). lia.
Qed.

(** Every truthy height of the list that was not seen before is chosen. *)
Lemma first_per_height_complete (seen : gset Z) (l : list format_desc) (g : format_desc) :
  g ∈ l → truthy (height g) = true → height_key g ∉ seen →
  ∃ f, f ∈ first_per_height seen l ∧ height_key f = height_key g.
Proof.
  revert seen. induction l as [|g0 l IH]; intros seen Hin Ht Hn;
    [by apply elem_of_nil in Hin|].
  assert (Hrec : ∀ seen', g ∈ l → height_key g ∉ seen' →
            ∃ f, f ∈ first_per_height seen' l ∧ height_key f = height_key g)
    by (intros; by apply IH).
  simpl. destruct (height g0) as [h|] eqn:Hg0.
  - assert (Hk0 : height_key g0 = h) by (unfold height_key; by rewrite Hg0).
    case_height h seen Hz Hseen.
    + apply elem_of_cons in Hin as [->|Hin]; [|by apply Hrec].
      rewrite Hg0, Hz in Ht. discriminate Ht.
    + destruct (decide (height_key g = h)) as [Heq|Hne].
      * exists g0. split; [by left|]. by rewrite Hk0.
      * apply elem_of_cons in Hin as [->|Hin]; [done|].
        destruct (Hrec ({[h]} ∪ seen) Hin) as (f & Hf & Hkf).
        { intros [?%elem_of_singleton|?]%elem_of_union; done. }
        exists f. split; [by right|done].
    + apply elem_of_cons in Hin as [->|Hin]; [|by apply Hrec].
      exfalso. apply Hn. rewrite Hk0. by apply dec_stable.
  - apply elem_of_cons in Hin as [->|Hin]; [|by apply Hrec].
    by rewrite Hg0 in Ht.
Qed.

Lemma sorted_NoDup_strict {A} (key : A → Z) (l : list A) :
  StronglySorted (Link.desc key) l → NoDup (map key l) →
  StronglySorted (λ a b, key b < key a) l.
Proof.
  induction l as [|x l IH]; intros Hs Hnd; [constructor|].
  apply StronglySorted_cons in Hs as [Hall Hs].
  apply NoDup_cons in Hnd as [Hx Hnd].
  apply StronglySorted_cons. split; [|by apply IH].
  apply Forall_forall. intros y Hy. rewrite Forall_forall in Hall.
  specialize (Hall _ Hy). unfold Link.desc in Hall.
  assert (key y ≠ key x); [|lia].
  intros Heq. apply Hx. rewrite <- Heq. apply list_elem_of_fmap. by exists y.
Qed.

(** The loop appends one row for each format the pass keeps. *)
Lemma for_each_video_step (video_id : option string) (l : list format_desc)
    (seen : gset Z) (kb : list (list button)) (st : loop_state) :
  for_each (video_step video_id) (seen, kb) l = Ok st →
  ∃ rows, st.2 = kb ++ rows ∧
          Forall2 (row_for video_id) rows (first_per_height seen l).
Proof.
  revert seen kb. induction l as [|f l IH]; intros seen kb; simpl.
  - intros [= <-]. exists []. split; [by rewrite app_nil_r|constructor].
  - destruct (height f) as [h|] eqn:Hf; [|apply IH].
    destruct (negb (h =? 0) && bool_decide (h ∉ seen)); [|apply IH].
    destruct (format_size (file_size f)) as [size|e] eqn:Hsize; simpl; [|done].
    intros Hrun. destruct (IH _ _ Hrun) as (rows & Hst & Hrows).
    eexists (_ :: rows). split.
    + by rewrite Hst, <- app_assoc.
    + constructor; [|done]. exists size. split; [done|].
      unfold video_row, height_key. by rewrite Hf.
Qed.

(** The loop runs to its end when every size it has to print is one that
    [format_size] handles. *)
Lemma for_each_video_step_defined (video_id : option string) (l : list format_desc)
    (seen : gset Z) (kb : list (list button)) :
  (∀ f, f ∈ first_per_height seen l → is_Ok (format_size (file_size f))) →
  is_Ok (for_each (video_step video_id) (seen, kb) l).
Proof.
  revert seen kb. induction l as [|f l IH]; intros seen kb; simpl.
  - intros _. by eexists.
  - destruct (height f) as [h|] eqn:Hf; [|apply IH].
    destruct (negb (h =? 0) && bool_decide (h ∉ seen)); [|apply IH].
    intros Hok. destruct (Hok f ltac:(by left)) as [size ->]. simpl.
    apply IH. intros g Hg. apply Hok. by right.
Qed.

Lemma find_head_filter {A} (P : A → Prop) `{!∀ x, Decision (P x)} (l : list A) :
  List.find (λ x, bool_decide (P x)) l = head (filter P l).
Proof.
  induction l as [|x l IH]; [done|]. simpl. rewrite filter_cons.
  case_bool_decide; [by rewrite decide_True|by rewrite decide_False].
Qed.

Lemma video_candidate_truthy (f : format_desc) :
  is_video_candidate f = true → truthy (height f) = true.
Proof. unfold is_video_candidate. by intros [_ ?]%andb_true_iff. Qed.

(** The filter of line 71, condition by condition. *)
Lemma video_candidate_spec (f : format_desc) :
  is_video_candidate f = true ↔
  vcodec f ≠ Some "none" ∧ ext f = Some "mp4" ∧
  height f ≠ None ∧ height f ≠ Some 0.
Proof.
  unfold is_video_candidate, truthy.
  rewrite !andb_true_iff, !bool_decide_eq_true.
  destruct (height f) as [h|].
  - destruct (Z.eqb_spec h 0) as [->|Hh]; simpl.
    + split; [by intros [_ ?]|by intros (_ & _ & _ & ?)].
    + split; [intros [[? ?] _]|intros (? & ? & _)]; repeat split; try done.
      by intros [= ?].
  - split; [by intros [_ ?]|by intros (_ & _ & ? & _)].
Qed.

Lemma video_formats_perm (formats : list format_desc) :
  video_formats formats ≡ₚ filter (λ f, is_video_candidate f = true) formats.
Proof. apply sorted_desc_perm. Qed.

(** The video rows are produced whenever every size to print is one that
    [format_size] handles. *)
Lemma video_buttons_defined (video_id : option string) (formats : list format_desc) :
  (∀ f, f ∈ formats → is_Ok (format_size (file_size f))) →
  is_Ok (video_buttons video_id formats).
Proof.
  intros Hok. unfold video_buttons.
  destruct (for_each_video_step_defined video_id (video_formats formats) ∅ [])
    as [st ->]; [|by eexists].
  intros f Hf. apply Hok.
  apply first_per_height_elem in Hf as (Hf & _).
  rewrite video_formats_perm in Hf. by apply list_elem_of_filter in Hf as [_ ?].
Qed.

(** The video rows are the rows of the formats a deduplicating pass keeps
    from the ordered list. *)
Lemma video_buttons_rows (video_id : option string) (formats : list format_desc)
    (kb : list (list button)) :
  video_buttons video_id formats = Ok kb →
  Forall2 (row_for video_id) kb (first_per_height ∅ (video_formats formats)).
Proof.
  unfold video_buttons. intros Hrun.
  destruct (for_each _ _ _) as [st|e] eqn:Hloop; simpl in Hrun; [|done].
  injection Hrun as <-.
  destruct (for_each_video_step _ _ _ _ _ Hloop) as (rows & Hst & Hrows).
  simpl in Hst. by rewrite Hst.
Qed.

(** C3: the rows of video buttons. The formats kept by the filter are
    those, in declared order, whose video codec is not 'none', whose
    container is 'mp4' and whose height is present and not zero; they are
    put in descending order of height, formats of one height staying in the
    order the service declared them. The keyboard has one row, of one
    button, for each format of a list [chosen]: heights strictly
    descending from row to row, so no height twice; each chosen format is
    the first of its height in the ordered list, which is also the first
    of its height among the filtered formats as declared; and every
    height of a filtered format has its row. *)
Theorem video_buttons_one_per_height (video_id : option string)
    (formats : list format_desc) (kb : list (list button)) :
  video_buttons video_id formats = Ok kb →
  let candidates := filter (λ f, is_video_candidate f = true) formats in
  let ordered := video_formats formats in
  (candidates = filter (λ f, vcodec f ≠ Some "none" ∧ ext f = Some "mp4" ∧
                             height f ≠ None ∧ height f ≠ Some 0) formats ∧
   ordered ≡ₚ candidates ∧
   StronglySorted (Link.desc height_key) ordered ∧
   ∀ h, filter (λ f, height_key f = h) ordered
        = filter (λ f, height_key f = h) candidates) ∧
  ∃ chosen : list format_desc,
    Forall2 (row_for video_id) kb chosen ∧
    StronglySorted (λ a b, height_key b < height_key a) chosen ∧
    NoDup (map height_key chosen) ∧
    (∀ f, f ∈ chosen →
       is_video_candidate f = true ∧
       (f ∈ formats ∧ vcodec f ≠ Some "none" ∧ ext f = Some "mp4" ∧
        height_key f ≠ 0) ∧
       height f = Some (height_key f) ∧
       List.find (λ g, bool_decide (height_key g = height_key f)) ordered = Some f ∧
       List.find (λ g, bool_decide (height_key g = height_key f)) candidates = Some f) ∧
    (∀ g, g ∈ candidates → ∃ f, f ∈ chosen ∧ height_key f = height_key g).
Proof.
  intros Hrun candidates ordered.
  assert (Hperm : ordered ≡ₚ candidates) by apply video_formats_perm.
  assert (Hsorted : StronglySorted desc ordered) by apply sorted_desc_sorted.
  assert (Hstable : ∀ h, filter (λ f, height_key f = h) ordered
                         = filter (λ f, height_key f = h) candidates)
    by (intros h; apply sorted_desc_stable).
  split.
  { split; [|done]. apply list_filter_iff. intros f. apply video_candidate_spec. }
  exists (first_per_height ∅ ordered).
  split; [by apply video_buttons_rows|]. split; [|split; [apply first_per_height_NoDup|split]].
  - apply sorted_NoDup_strict; [by apply first_per_height_sorted|].
    apply first_per_height_NoDup.
  - intros f Hf.
    pose proof (first_per_height_first _ _ _ Hf) as Hfirst.
    apply first_per_height_elem in Hf as (Hin & Hh & Hnz & _).
    assert (Hcand : f ∈ candidates) by (by rewrite <- Hperm).
    apply list_elem_of_filter in Hcand as [Hcand Hdeclared].
    pose proof (proj1 (video_candidate_spec f) Hcand) as (Hvcodec & Hext & _ & _).
    repeat split; try done.
    by rewrite find_head_filter, <- Hstable, <- find_head_filter.
  - intros g Hg. apply (first_per_height_complete ∅ ordered g).
    + by rewrite Hperm.
    + apply video_candidate_truthy. by apply list_elem_of_filter in Hg as [? _].
    + apply not_elem_of_empty.
Qed.

Lemma video_buttons_one_per_height_witness :
  ∃ chosen : list format_desc,
    Forall2 (row_for (Some "abc123")) sample_video_rows chosen ∧
    NoDup (map height_key chosen) ∧
    ∀ f, f ∈ chosen → f ∈ sample_formats ∧ ext f = Some "mp4".
Proof.
  destruct (video_buttons_one_per_height (Some "abc123") sample_formats
              sample_video_rows)
    as (_ & chosen & Hrows & _ & Hnodup & Hchosen & _).
  - vm_compute. reflexivity.
  - exists chosen. split; [assumption|]. split; [assumption|].
    intros f Hf. by destruct (Hchosen f Hf) as (_ & (? & _ & ? & _) & _).
Defined.

End VideoButtons.

(** * The audio button *)

Section AudioButton.
Import Helpers Link.

Lemma find_split {A} (p : A → bool) (l : list A) (x : A) :
  List.find p l = Some x →
  ∃ before after, l = before ++ x :: after ∧ p x = true ∧
                  ∀ y, y ∈ before → p y = false.
Proof.
  induction l as [|y l IH]; simpl; [done|].
  destruct (p y) eqn:Hy.
  - intros [= ->]. exists [], l. repeat split; try done. by intros ? ?%elem_of_nil.
  - intros Hfind. destruct (IH Hfind) as (before & after & -> & Hx & Hbefore).
    exists (y :: before), after. repeat split; try done.
    intros z [->|Hz]%elem_of_cons; auto.
Qed.

Lemma elem_of_rev {A} (x : A) (l : list A) : x ∈ rev l ↔ x ∈ l.
Proof. rewrite !list_elem_of_In. symmetry. apply in_rev. Qed.

(** The format the audio step picks: the last declared format that is
    audio-only in one of the three containers; none when there is no such
    format. *)
Lemma best_audio_spec (formats : list format_desc) :
  match best_audio formats with
  | Some f =>
      is_audio_candidate f = true ∧
      ∃ earlier later, formats = earlier ++ f :: later ∧
                       ∀ g, g ∈ later → is_audio_candidate g = false
  | None => ∀ g, g ∈ formats → is_audio_candidate g = false
  end.
Proof.
  unfold best_audio. destruct (List.find _ _) as [f|] eqn:Hfind.
  - destruct (find_split _ _ _ Hfind) as (before & after & Hrev & Hf & Hbefore).
    split; [exact Hf|]. exists (rev after), (rev before). split.
    + rewrite <- (rev_involutive formats), Hrev, rev_app_distr. simpl.
      by rewrite <- app_assoc.
    + intros g Hg. apply Hbefore. by apply (elem_of_rev g before).
  - intros g Hg. eapply List.find_none; [exact Hfind|].
    apply list_elem_of_In. by apply (elem_of_rev g formats).
Qed.

Lemma audio_candidate_spec (f : format_desc) :
  is_audio_candidate f = true ↔
  acodec f ≠ Some "none" ∧ vcodec f = Some "none" ∧
  ∃ e, ext f = Some e ∧ e ∈ ["m4a"; "webm"; "mp3"].
Proof.
  unfold is_audio_candidate, audio_exts. rewrite !andb_true_iff, !bool_decide_eq_true.
  destruct (ext f) as [e|].
  - rewrite bool_decide_eq_true. split.
    + intros [[? ?] ?]. eauto 6.
    + intros (? & ? & e' & [= <-] & ?). auto.
  - split; [by intros [_ ?]|by intros (_ & _ & e & ? & _)].
Qed.

(** The rows the audio step appends: none without a pick, and for a pick
    one row of one button, whose label carries what [format_size] prints
    for its size; a fault of [format_size] is the fault of the step. *)
Lemma audio_buttons_spec (video_id : option string) (formats : list format_desc) :
  match best_audio formats with
  | None => audio_buttons video_id formats = Ok []
  | Some f =>
      (∀ size, format_size (file_size f) = Ok size →
         audio_buttons video_id formats =
         Ok [[Button (audio_label size)
                     (audio_token (str_id video_id) (format_id f))]]) ∧
      (∀ e, format_size (file_size f) = Raise e →
         audio_buttons video_id formats = Raise e)
  end.
Proof.
  unfold audio_buttons. destruct (best_audio formats) as [f|]; [|done].
  split; intros ? ->; reflexivity.
Qed.

(** C8, on a format list whose only entry is an audio-only m4a stream of
    two tebibytes: the stream is the one picked, and no audio button is
    rendered for it, because printing its size raises [IndexError]. *)
Theorem audio_button_missing_for_oversize :
  best_audio [oversize_audio] = Some oversize_audio ∧
  is_audio_candidate oversize_audio = true ∧
  audio_buttons (Some "abc123") [oversize_audio] = Raise IndexError ∧
  build_keyboard (Some "abc123") [oversize_audio] = Raise IndexError ∧
  calls (snd (LinkHandler.url_handler (cooperative oversize_info)
                "https://youtu.be/abc123" (initial_world ∅ ∅)))
  = [ReplyText LinkHandler.msg_processing; ExtractInfo "https://youtu.be/abc123";
     EditText LinkHandler.msg_unexpected].
Proof. repeat split. Qed.

End AudioButton.

(** * Tokens made by the Link Handler, read by the Selection Handler *)

Section RoundTrip.
Import Helpers Link SelectionHandler.

Lemma row_for_token (video_id : option string) (row : list button) (f : format_desc) :
  row_for video_id row f →
  ∃ label, row = [Button label (video_token (str_id video_id) (height_key f))].
Proof. intros (size & _ & ->). by eexists. Qed.

(** C9: a token made by the Link Handler for a video id and a format id
    without ':' is split by the Selection Handler into exactly three
    fields, which are the kind, the video id and the height or format id
    the token was made from. This holds for the two shapes of token, and
    so for the token of every button of a keyboard the Link Handler
    builds. *)
Theorem callback_token_round_trip (video_id : option string) :
  no_colon (str_id video_id) →
  (∀ h : Z,
     split_on colon (video_token (str_id video_id) h)
       = ["video"; str_id video_id; str_Z h] ∧
     parse_token (video_token (str_id video_id) h)
       = Ok ("video", str_id video_id, str_Z h)) ∧
  (∀ fid : string, no_colon fid →
     split_on colon (audio_token (str_id video_id) fid)
       = ["audio"; str_id video_id; fid] ∧
     parse_token (audio_token (str_id video_id) fid)
       = Ok ("audio", str_id video_id, fid)) ∧
  (∀ formats kb,
     (∀ f, f ∈ formats → no_colon (format_id f)) →
     build_keyboard video_id formats = Ok kb →
     ∀ row b, row ∈ kb → b ∈ row →
       ∃ kind quality,
         kind ∈ ["video"; "audio"] ∧
         parse_token (callback_data b) = Ok (kind, str_id video_id, quality)).
Proof.
  intros Hid.
  assert (Hvideo : ∀ h, split_on colon (video_token (str_id video_id) h)
                        = ["video"; str_id video_id; str_Z h]).
  { intros h. unfold video_token.
    change ("video:" +:+ ?x) with ("video" +:+ String colon x).
    rewrite split_on_field by reflexivity.
    change (":" +:+ str_Z h) with (String colon (str_Z h)).
    rewrite (split_on_field _ _ _ Hid).
    by rewrite (split_on_no_sep _ _ (str_Z_no_colon h)). }
  assert (Haudio : ∀ fid, no_colon fid →
            split_on colon (audio_token (str_id video_id) fid)
            = ["audio"; str_id video_id; fid]).
  { intros fid Hfid. unfold audio_token.
    change ("audio:" +:+ ?x) with ("audio" +:+ String colon x).
    rewrite split_on_field by reflexivity.
    change (":" +:+ fid) with (String colon fid).
    rewrite (split_on_field _ _ _ Hid).
    by rewrite (split_on_no_sep _ _ Hfid). }
  split; [|split].
  - intros h. split; [apply Hvideo|]. unfold parse_token. by rewrite Hvideo.
  - intros fid Hfid. split; [by apply Haudio|].
    unfold parse_token. by rewrite Haudio.
  - intros formats kb Hfmt Hkb row b Hrow Hb. unfold build_keyboard in Hkb.
    destruct (video_buttons video_id formats) as [kv|] eqn:Hkv; simpl in Hkb; [|done].
    destruct (audio_buttons video_id formats) as [ka|] eqn:Hka; simpl in Hkb; [|done].
    injection Hkb as <-. apply elem_of_app in Hrow as [Hrow|Hrow].
    + pose proof (video_buttons_rows _ _ _ Hkv) as Hrows.
      apply list_elem_of_lookup in Hrow as [i Hi].
      destruct (Forall2_lookup_l _ _ _ _ _ Hrows Hi) as (f & _ & Hrf).
      apply row_for_token in Hrf as (label & ->).
      apply list_elem_of_singleton in Hb as ->. simpl.
      exists "video", (str_Z (height_key f)). split; [set_solver|].
      unfold parse_token. by rewrite Hvideo.
    + unfold audio_buttons in Hka.
      pose proof (best_audio_spec formats) as Hbest.
      destruct (best_audio formats) as [f|]; [|injection Hka as <-; by apply elem_of_nil in Hrow].
      destruct (format_size (file_size f)) as [size|]; simpl in Hka; [|done].
      injection Hka as <-.
      apply list_elem_of_singleton in Hrow as ->.
      apply list_elem_of_singleton in Hb as ->. simpl.
      destruct Hbest as (_ & earlier & later & -> & _).
      exists "audio", (format_id f). split; [set_solver|].
      unfold parse_token. rewrite Haudio; [done|].
      apply Hfmt. apply elem_of_app. right. by left.
Qed.

Lemma callback_token_round_trip_witness :
  parse_token (video_token "abc123" 720) = Ok ("video", "abc123", "720") ∧
  parse_token (audio_token "abc123" "140") = Ok ("audio", "abc123", "140").
Proof.
  destruct (callback_token_round_trip (Some "abc123") eq_refl)
    as (Hvideo & Haudio & _).
  split.
  - exact (proj2 (Hvideo 720)).
  - exact (proj2 (Haudio "140" eq_refl)).
Defined.

End RoundTrip.

(** * The handlers *)

Section Steady.

Lemma steady_ret {A} (a : A) : steady (ret a).
Proof. intros w. repeat split. exists []. by rewrite app_nil_r. Qed.

Lemma steady_lift {A} (r : result A) : steady (lift r).
Proof. intros w. repeat split. exists []. by rewrite app_nil_r. Qed.

Lemma steady_tg (o : oracle) (c : call) : steady (tg o c).
Proof.
  intros w. unfold tg. destruct (transport o (calls w) c);
    repeat split; by exists [c].
Qed.

Lemma steady_get_user_data (key dflt : string) : steady (get_user_data key dflt).
Proof. intros w. repeat split. exists []. by rewrite app_nil_r. Qed.

Lemma steady_open_rb (path : string) : steady (open_rb path).
Proof.
  intros w. unfold open_rb. case_bool_decide; repeat split;
    exists []; by rewrite app_nil_r.
Qed.

Lemma steady_bind {A B} (m : M A) (k : A → M B) :
  steady m → (∀ a, steady (k a)) → steady (bind m k).
Proof.
  intros Hm Hk w. unfold bind.
  destruct (Hm w) as (Hf & Hu & later & Hc).
  destruct (m w) as [[a|e] w']; simpl in *.
  - destruct (Hk a w') as (Hf' & Hu' & later' & Hc').
    split; [congruence|]. split; [congruence|].
    exists (later ++ later'). by rewrite Hc', Hc, app_assoc.
  - split; [done|]. split; [done|]. by exists later.
Qed.

Lemma steady_try_except {A} (body : M A) (handler : exn → M A) :
  steady body → (∀ e, steady (handler e)) → steady (try_except body handler).
Proof.
  intros Hm Hk w. unfold try_except.
  destruct (Hm w) as (Hf & Hu & later & Hc).
  destruct (body w) as [[a|e] w']; simpl in *.
  - split; [done|]. split; [done|]. by exists later.
  - destruct (Hk e w') as (Hf' & Hu' & later' & Hc').
    split; [congruence|]. split; [congruence|].
    exists (later ++ later'). by rewrite Hc', Hc, app_assoc.
Qed.

End Steady.

Section Selection.
Import SelectionHandler.

Lemma steady_on_failure (o : oracle) (e : exn) : steady (on_failure o e).
Proof. destruct e; apply steady_tg. Qed.

(** The [finally] clause: whatever the body did, the file is gone
    afterwards and nothing else has changed. *)
Lemma try_finally_cleanup {A} (body : M A) (path : string) (w : world) :
  let r := try_finally body (cleanup path) w in
  r.1 = (body w).1 ∧
  files r.2 = files (body w).2 ∖ {[path]} ∧
  user_data r.2 = user_data (body w).2 ∧
  calls r.2 = calls (body w).2.
Proof.
  unfold try_finally, cleanup, bind, path_exists, os_remove, ret.
  destruct (body w) as [r w']. simpl.
  case_bool_decide as Hin; simpl; repeat split.
  symmetry. apply difference_disjoint_L. by apply disjoint_singleton_r.
Qed.

(** The body of the [try] and its [except] clauses: the files are those
    the download left, and the history starts with the download. *)
Lemma fetch_and_upload_files (o : oracle) (chat_id : Z)
    (download_type url path : string) (opts : ydl_opts) (w : world) :
  let w' := (try_except (fetch_and_upload o chat_id download_type url path opts)
                        (on_failure o) w).2 in
  files w' = (download o (calls w) opts url (files w)).1 ∧
  user_data w' = user_data w ∧
  ∃ later, calls w' = calls w ++ Download opts url :: later.
Proof.
  unfold fetch_and_upload.
  set (rest := bind (tg o (EditCaption msg_uploading false)) _).
  assert (Hrest : steady rest).
  { unfold rest. apply steady_bind; [apply steady_tg|]. intros _.
    apply steady_bind; [apply steady_get_user_data|]. intros title.
    apply steady_bind; [apply steady_open_rb|]. intros _.
    apply steady_bind; [|intros _; apply steady_tg].
    destruct (String.eqb download_type "audio"); apply steady_tg. }
  unfold try_except, bind, call_download.
  destruct (download o (calls w) opts url (files w)) as [files' [e|]]; simpl.
  - destruct (steady_on_failure o e
                (World files' (user_data w) (calls w ++ [Download opts url])))
      as (Hf & Hu & later & Hc).
    simpl in *. split; [done|]. split; [done|].
    exists later. by rewrite Hc, <- app_assoc.
  - set (w1 := World files' (user_data w) (calls w ++ [Download opts url])).
    destruct (Hrest w1) as (Hf & Hu & later & Hc).
    destruct (rest w1) as [[[]|e] w2]; simpl in *.
    + split; [done|]. split; [done|]. exists later. by rewrite Hc, <- app_assoc.
    + destruct (steady_on_failure o e w2) as (Hf' & Hu' & later' & Hc').
      split; [congruence|]. split; [congruence|].
      exists (later ++ later'). by rewrite Hc', Hc, <- !app_assoc.
Qed.

(** Up to the [try]: the event is answered, the token is read and the
    status edit is attempted, its failure being swallowed. *)
Lemma callback_reaches_try (o : oracle) (data : string) (from_user_id chat_id : Z)
    (w : world) (download_type video_id quality_or_id : string) :
  transport o (calls w) Answer = None →
  parse_token data = Ok (download_type, video_id, quality_or_id) →
  let path := file_path from_user_id download_type video_id in
  let opts := make_opts (download_format download_type quality_or_id) path in
  download_button_callback o data from_user_id chat_id w =
  try_finally
    (try_except (fetch_and_upload o chat_id download_type (watch_url video_id) path opts)
                (on_failure o))
    (cleanup path)
    (World (files w) (user_data w)
           (calls w ++ [Answer; EditCaption msg_preparing false])).
Proof.
  intros Hanswer Hparse. simpl.
  unfold download_button_callback, bind at 1, tg at 1. rewrite Hanswer.
  unfold bind at 1, lift. rewrite Hparse.
  unfold bind at 1, try_except at 1, tg at 1, record_call. simpl.
  rewrite <- app_assoc. simpl.
  by destruct (transport o (calls w ++ [Answer]) (EditCaption msg_preparing false)).
Qed.

(** The download is asked with the options built from the token. *)
Lemma callback_download_call (o : oracle) (data : string) (from_user_id chat_id : Z)
    (w : world) (download_type video_id quality_or_id : string) :
  transport o (calls w) Answer = None →
  parse_token data = Ok (download_type, video_id, quality_or_id) →
  let path := file_path from_user_id download_type video_id in
  let opts := make_opts (download_format download_type quality_or_id) path in
  ∃ later,
    calls (download_button_callback o data from_user_id chat_id w).2 =
    (calls w ++ [Answer; EditCaption msg_preparing false])
      ++ Download opts (watch_url video_id) :: later.
Proof.
  intros Hanswer Hparse path opts.
  rewrite (callback_reaches_try _ _ _ _ _ _ _ _ Hanswer Hparse).
  fold path opts.
  set (w1 := World _ _ _). set (body := try_except _ _).
  destruct (try_finally_cleanup body path w1) as (_ & _ & _ & Hcalls).
  destruct (fetch_and_upload_files o chat_id download_type (watch_url video_id)
              path opts w1) as (_ & _ & later & Hlater).
  exists later. rewrite Hcalls. exact Hlater.
Qed.

(** When the event cannot be answered or the token does not have three
    fields, the handler stops before any download: no file is touched. *)
Lemma callback_stops_early (o : oracle) (data : string) (from_user_id chat_id : Z)
    (w : world) :
  transport o (calls w) Answer ≠ None ∨ parse_token data = Raise ValueError →
  ∃ e, download_button_callback o data from_user_id chat_id w
       = (Raise e, World (files w) (user_data w) (calls w ++ [Answer])).
Proof.
  intros Hstop.
  unfold download_button_callback, bind at 1, tg at 1.
  destruct (transport o (calls w) Answer) as [msg|] eqn:Hanswer.
  - by eexists.
  - destruct Hstop as [|Hparse]; [done|].
    unfold bind at 1, lift. rewrite Hparse. by eexists.
Qed.

(** C1: every run of the Selection Handler that reaches the download
    attempt (the event was answered and the token had its three fields)
    ends with no local file at the path [<requester>_<video>.<ext>]. This
    holds whatever the collaborators do: a download that succeeds or
    raises, with or without a file left behind, an upload or a status
    edit that raises. The other local files are those the download left. *)
Theorem cleanup_on_every_exit (o : oracle) (data : string)
    (from_user_id chat_id : Z) (w : world)
    (download_type video_id quality_or_id : string) :
  transport o (calls w) Answer = None →
  parse_token data = Ok (download_type, video_id, quality_or_id) →
  let path := file_path from_user_id download_type video_id in
  let opts := make_opts (download_format download_type quality_or_id) path in
  let history := calls w ++ [Answer; EditCaption msg_preparing false] in
  let r := download_button_callback o data from_user_id chat_id w in
  (∃ later, calls r.2 = history ++ Download opts (watch_url video_id) :: later) ∧
  (path ∉ files r.2) ∧
  files r.2 = (download o history opts (watch_url video_id) (files w)).1 ∖ {[path]}.
Proof.
  intros Hanswer Hparse path opts history r.
  unfold r. rewrite (callback_reaches_try _ _ _ _ _ _ _ _ Hanswer Hparse).
  fold path opts history.
  set (w1 := World (files w) (user_data w) history).
  set (body := try_except _ _).
  destruct (try_finally_cleanup body path w1) as (_ & Hfiles & _ & Hcalls).
  destruct (fetch_and_upload_files o chat_id download_type (watch_url video_id)
              path opts w1) as (Hleft & _ & later & Hlater).
  fold body in Hleft, Hlater. simpl in Hleft, Hlater.
  split; [|split].
  - exists later. by rewrite Hcalls, Hlater.
  - rewrite Hfiles. intros [_ Hn]%elem_of_difference. apply Hn.
    by apply elem_of_singleton.
  - by rewrite Hfiles, Hleft.
Qed.

Lemma cleanup_on_every_exit_witness :
  ("42_abc123.mp4" ∉
    files (snd (download_button_callback (cooperative sample_info)
                  "video:abc123:720" 42 7 (initial_world ∅ ∅)))) ∧
  "42_abc123.m4a" ∉
    files (snd (download_button_callback
                  (hostile 3 ValueError (DownloadError "blocked"))
                  "audio:abc123:140" 42 7 (initial_world ∅ ∅))).
Proof.
  split.
  - exact (proj1 (proj2 (cleanup_on_every_exit (cooperative sample_info)
             "video:abc123:720" 42 7 (initial_world ∅ ∅)
             "video" "abc123" "720" eq_refl eq_refl))).
  - exact (proj1 (proj2 (cleanup_on_every_exit
             (hostile 3 ValueError (DownloadError "blocked"))
             "audio:abc123:140" 42 7 (initial_world ∅ ∅)
             "audio" "abc123" "140" eq_refl eq_refl))).
Defined.

End Selection.

(** * What the Selection Handler asks the download service *)

Section Selector.
Import Helpers SelectionHandler.

Lemma string_of_uint_chars (c : ascii) (d : Decimal.uint) :
  is_digit_or_minus c = false →
  char_in c (NilEmpty.string_of_uint d) = false.
Proof.
  unfold is_digit_or_minus. simpl. intros Hc.
  repeat match type of Hc with
         | (if Ascii.eqb c ?x then _ else _) = _ =>
             destruct (Ascii.eqb c x) eqn:?; [discriminate|]
         end.
  induction d; simpl; rewrite ?IHd; by repeat case_match.
Qed.

Lemma str_Z_chars (c : ascii) (z : Z) :
  is_digit_or_minus c = false → char_in c (str_Z z) = false.
Proof.
  intros Hc. pose proof (string_of_uint_chars c) as Hd.
  assert (H0 : char_in c "0" = false ∧ Ascii.eqb c "-" = false).
  { unfold is_digit_or_minus in Hc. simpl in Hc. simpl.
    repeat match type of Hc with
           | (if Ascii.eqb c ?x then _ else _) = _ =>
               destruct (Ascii.eqb c x) eqn:?; [discriminate|]
           end. done. }
  destruct H0 as [H0 Hm].
  unfold str_Z, NilZero.string_of_int, NilZero.string_of_uint.
  destruct (Z.to_int z) as [d|d]; [|simpl; rewrite Hm];
    (destruct d; [exact H0|apply (Hd _ Hc)..]).
Qed.

Lemma tier_filters_aux_field (acc field rest : string) :
  char_in "]" field = false →
  tier_filters_aux (Some acc) (field +:+ String "]" rest)
  = (acc +:+ field) :: tier_filters_aux None rest.
Proof.
  revert acc. induction field as [|c field IH]; intros acc.
  - intros _. rewrite app_empty_l, app_empty_r. reflexivity.
  - intros Hf. rewrite app_cons. cbn [tier_filters_aux].
    cbn [char_in] in Hf. rewrite (Ascii.eqb_sym c "]").
    destruct (Ascii.eqb "]" c); [discriminate Hf|].
    rewrite (IH _ Hf). by rewrite app_assoc_str.
Qed.

Lemma selector_is_three_tiers (height : string) :
  download_format "video" height =
  merged_tier height +:+ "/" +:+ single_file_tier height +:+ "/" +:+ last_tier.
Proof.
  unfold download_format, merged_tier, single_file_tier, last_tier.
  change (String.eqb "video" "video") with true. cbv iota.
  by rewrite !app_assoc_str.
Qed.

Lemma single_file_tier_filters (height : string) :
  char_in "]" height = false →
  tier_filters (single_file_tier height) = ["height<=" +:+ height; "ext=mp4"].
Proof.
  intros Hh. unfold tier_filters, single_file_tier.
  change ("best[height<=" +:+ height +:+ "][ext=mp4]")
    with ("best[height<=" +:+ (height +:+ String "]" "[ext=mp4]")).
  change (tier_filters_aux None ("best[height<=" +:+ ?x))
    with (tier_filters_aux (Some "height<=") x).
  by rewrite (tier_filters_aux_field _ _ _ Hh).
Qed.

(** C2, on the token "video:abc123:720": the selector the handler builds
    is not the one the specification words. Its second alternative,
    [best[height<=720][ext=mp4]], still constrains the container. *)
Lemma selector_fallback_keeps_container :
  parse_token "video:abc123:720" = Ok ("video", "abc123", "720") ∧
  selector_tiers (download_format "video" "720")
    = [merged_tier "720"; "best[height<=720][ext=mp4]"; "best"] ∧
  constrains_container "best[height<=720][ext=mp4]" = true ∧
  ¬ selector_as_specified (download_format "video" "720") "720".
Proof.
  repeat split.
  intros (merged & at_height & Htiers & _ & _ & Hfree).
  vm_compute in Htiers. injection Htiers as _ <-.
  vm_compute in Hfree. discriminate Hfree.
Qed.

(** C2, as the code has it. For a token [video:<id>:<H>] the handler
    reads the three fields back, and the selector is three alternatives
    in this order: best video at height <= H in mp4 merged with best audio
    in m4a; the best single file at height <= H, still in mp4; the best
    file whatever it is. The local path ends in [.mp4]. For a token
    [audio:<id>:<fid>] the selector is [fid] itself and the path ends in
    [.m4a]. When [H] is a height written by the Link Handler the selector
    splits at [/] into exactly these alternatives, and the filters of the
    second are the height bound and the mp4 container. *)
Theorem selector_and_path_of_token (from_user_id : Z) (video_id quality : string) :
  no_colon video_id → no_colon quality →
  (parse_token ("video:" +:+ video_id +:+ ":" +:+ quality)
     = Ok ("video", video_id, quality) ∧
   download_format "video" quality =
     merged_tier quality +:+ "/" +:+ single_file_tier quality +:+ "/" +:+ last_tier ∧
   ends_with ".mp4" (file_path from_user_id "video" video_id) = true) ∧
  (parse_token ("audio:" +:+ video_id +:+ ":" +:+ quality)
     = Ok ("audio", video_id, quality) ∧
   download_format "audio" quality = quality ∧
   ends_with ".m4a" (file_path from_user_id "audio" video_id) = true) ∧
  (∀ h : Z, quality = str_Z h →
     selector_tiers (download_format "video" quality)
       = [merged_tier quality; single_file_tier quality; last_tier] ∧
     tier_filters (single_file_tier quality)
       = ["height<=" +:+ quality; "ext=mp4"] ∧
     constrains_container (single_file_tier quality) = true ∧
     tier_filters last_tier = []) ∧
  (∀ (o : oracle) (chat_id : Z) (w : world) (kind : string),
     kind = "video" ∨ kind = "audio" →
     transport o (calls w) Answer = None →
     ∃ later,
       calls (download_button_callback o (kind +:+ ":" +:+ video_id +:+ ":" +:+ quality)
                from_user_id chat_id w).2 =
       (calls w ++ [Answer; EditCaption msg_preparing false])
         ++ Download (YdlOpts (download_format kind quality)
                              (file_path from_user_id kind video_id)
                              true true "mp4")
                     (watch_url video_id) :: later).
Proof.
  intros Hid Hq.
  assert (Hpath : ∀ kind e,
            (if String.eqb kind "audio" then "m4a" else "mp4") = e →
            ends_with ("." +:+ e) (file_path from_user_id kind video_id) = true).
  { intros kind e He. unfold file_path. rewrite He.
    replace (str_Z from_user_id +:+ "_" +:+ video_id +:+ "." +:+ e)
      with ((str_Z from_user_id +:+ "_" +:+ video_id) +:+ ("." +:+ e))
      by (by rewrite !app_assoc_str).
    apply ends_with_app. }
  split; [|split; [|split]].
  - split; [|split].
    + change ("video:" +:+ ?x) with ("video" +:+ ":" +:+ x).
      by apply parse_token_fields.
    + apply selector_is_three_tiers.
    + by apply (Hpath "video" "mp4").
  - split; [|split].
    + change ("audio:" +:+ ?x) with ("audio" +:+ ":" +:+ x).
      by apply parse_token_fields.
    + reflexivity.
    + by apply (Hpath "audio" "m4a").
  - intros h ->.
    assert (Hslash : char_in "/" (str_Z h) = false) by (by apply str_Z_chars).
    assert (Hclose : char_in "]" (str_Z h) = false) by (by apply str_Z_chars).
    pose proof (single_file_tier_filters _ Hclose) as Hfilters.
    split; [|split; [exact Hfilters|split; [|reflexivity]]].
    + rewrite selector_is_three_tiers. unfold selector_tiers.
      assert (Hc : ∀ x, "/" +:+ x = String "/"%char x) by reflexivity.
      rewrite !Hc.
      rewrite split_on_field, split_on_field, split_on_no_sep; [done|done|..].
      * unfold single_file_tier. rewrite !char_in_app, Hslash. reflexivity.
      * unfold merged_tier. rewrite !char_in_app, Hslash. reflexivity.
    + unfold constrains_container. rewrite Hfilters. reflexivity.
  - intros o chat_id w kind Hkind Hanswer.
    apply callback_download_call; [exact Hanswer|].
    apply parse_token_fields; [|done..].
    by destruct Hkind as [-> | ->].
Qed.

Lemma selector_and_path_of_token_witness :
  download_format "video" "720" =
    "bestvideo[height<=720][ext=mp4]+bestaudio[ext=m4a]/best[height<=720][ext=mp4]/best" ∧
  ends_with ".mp4" (file_path 42 "video" "abc123") = true ∧
  download_format "audio" "140" = "140" ∧
  ends_with ".m4a" (file_path 42 "audio" "abc123") = true.
Proof.
  destruct (selector_and_path_of_token 42 "abc123" "720" eq_refl eq_refl)
    as ((_ & Hsel & Hmp4) & _).
  destruct (selector_and_path_of_token 42 "abc123" "140" eq_refl eq_refl)
    as (_ & (_ & Hfid & Hm4a) & _).
  repeat split; assumption.
Defined.

End Selector.

Section LinkHandlerFacts.
Import Helpers Link LinkHandler.

Lemma drop_after_first {A} (l rest : list A) (x : A) :
  drop (length l + 1) (l ++ x :: rest) = rest.
Proof.
  rewrite Nat.add_comm. induction l as [|y l IH]; [done|]. exact IH.
Qed.

(** What an [except] clause of the Link Handler does: one edit of the
    placeholder, nothing else. *)
Lemma on_error_edits (o : oracle) (e : exn) (w : world) :
  ∃ text,
    (on_error o e w).2 = World (files w) (user_data w) (calls w ++ [EditText text]) ∧
    match e with
    | DownloadError msg => text = cause_message (classify msg)
    | _ => text = msg_unexpected
    end.
Proof.
  destruct e; simpl; unfold tg;
    (eexists; split; [|reflexivity]);
    by destruct (transport o (calls w) _).
Qed.




(** C5, on a link whose video has no format: no button is produced, and
    yet the title is written to the session state, which held nothing
    before. *)
Lemma title_persisted_without_buttons :
  build_keyboard (info_id bare_info) (default [] (info_formats bare_info)) = Ok [] ∧
  calls bare_run.2 = [ReplyText msg_processing; ExtractInfo "https://youtu.be/abc123";
                      EditText msg_no_formats] ∧
  user_data (initial_world ∅ ∅) !! "video_title" = None ∧
  user_data bare_run.2 !! "video_title" = Some "Lecture 1" ∧
  ¬ (user_data bare_run.2 = user_data (initial_world ∅ ∅)).
Proof.
  split; [reflexivity|]. split; [reflexivity|]. split; [reflexivity|].
  split; [by vm_compute|].
  intros Heq. apply (f_equal (λ m : gmap string string, m !! "video_title")) in Heq.
  vm_compute in Heq. discriminate Heq.
Qed.

(** C5, as the code has it. Once extraction has returned, the title (or
    "No Title") is written to the session state under [video_title], and
    it stays there whatever follows. When the keyboard is empty, the next
    call is the edit of the placeholder to the no-formats message; the
    handler then stops, unless the edit itself raises, and then the only
    further call is the edit to the generic message. No call carries a
    button grid. *)
Theorem no_buttons_edits_placeholder (o : oracle) (url : string) (w : world)
    (info : info_dict) :
  transport o (calls w) (ReplyText msg_processing) = None →
  extract_info o (calls w ++ [ReplyText msg_processing]) url = Ok info →
  let title := default "No Title" (info_title info) in
  let history := calls w ++ [ReplyText msg_processing; ExtractInfo url] in
  let r := url_handler o url w in
  user_data r.2 = <["video_title" := title]> (user_data w) ∧
  (build_keyboard (info_id info) (default [] (info_formats info)) = Ok [] →
   calls r.2 =
     history ++ EditText msg_no_formats ::
       match transport o history (EditText msg_no_formats) with
       | None => []
       | Some _ => [EditText msg_unexpected]
       end ∧
   (transport o history (EditText msg_no_formats) = None → r.1 = Ok ()) ∧
   ∀ c, c ∈ drop (length (calls w) + 1) (calls r.2) → sends_grid c = false).
Proof.
  intros Hreply Hextract title history r.
  set (w2 := World (files w) (<["video_title" := title]> (user_data w)) history).
  set (kb := build_keyboard (info_id info) (default [] (info_formats info))).
  assert (Hrun : r = try_except
            (bind (lift kb) (λ keyboard,
               match keyboard with
               | [] => tg o (EditText msg_no_formats)
               | _ =>
                   bind (tg o DeleteMessage) (λ _,
                     match nonempty (info_thumbnail info) with
                     | Some photo =>
                         tg o (ReplyPhoto photo
                                 ("*" +:+ escape_markdown_v2 title +:+ "*") keyboard)
                     | None =>
                         tg o (ReplyTextMarkup
                                 ("*" +:+ escape_markdown_v2 title +:+ "*") keyboard)
                     end)
               end))
            (on_error o) w2).
  { unfold r, url_handler, bind at 1, tg at 1. rewrite Hreply.
    unfold try_except, resolve, bind at 1, call_extract_info, record_call.
    simpl. rewrite Hextract. unfold bind at 1, set_user_data. simpl.
    unfold w2, history. by rewrite <- app_assoc. }
  split.
  - rewrite Hrun. apply (steady_try_except _ (on_error o)).
    + apply steady_bind; [apply steady_lift|]. intros [|row keyboard].
      * apply steady_tg.
      * apply steady_bind; [apply steady_tg|]. intros _.
        destruct (nonempty _); apply steady_tg.
    + intros e. destruct e; apply steady_tg.
  - intros Hkb. unfold kb in Hkb, Hrun. rewrite Hkb in Hrun.
    assert (Hcalls : calls r.2 =
              history ++ EditText msg_no_formats ::
                match transport o history (EditText msg_no_formats) with
                | None => []
                | Some _ => [EditText msg_unexpected]
                end).
    { rewrite Hrun. unfold try_except, bind, lift, tg at 1. simpl.
      destruct (transport o history (EditText msg_no_formats)) as [msg|]; [|done].
      destruct (on_error_edits o (OtherException msg)
                  (record_call (EditText msg_no_formats) w2))
        as (text & -> & ->).
      simpl. by rewrite <- app_assoc. }
    split; [exact Hcalls|]. split.
    + intros Hedit. rewrite Hrun. unfold try_except, bind, lift, tg at 1. simpl.
      by rewrite Hedit.
    + rewrite Hcalls.
      destruct (transport o history (EditText msg_no_formats));
        unfold history; rewrite <- app_assoc; cbn [app];
        rewrite drop_after_first; intros c Hc;
        repeat (apply elem_of_cons in Hc as [->|Hc]; [reflexivity|]);
        by apply elem_of_nil in Hc.
Qed.

Lemma no_buttons_edits_placeholder_witness :
  user_data (snd (url_handler (cooperative bare_info) "https://youtu.be/abc123"
                    (initial_world ∅ ∅)))
  = <["video_title" := "Lecture 1"]> ∅.
Proof.
  exact (proj1 (no_buttons_edits_placeholder (cooperative bare_info)
           "https://youtu.be/abc123" (initial_world ∅ ∅) bare_info
           eq_refl eq_refl)).
Defined.

End LinkHandlerFacts.

(** * The handlers on sample data *)

Section Samples.
Import Helpers Link LinkHandler SelectionHandler.

Example format_size_samples :
  format_size (Some 1536) = Ok "(1.5 KB)" ∧
  format_size (Some 512) = Ok "(512.0 B)" ∧
  format_size (Some 1048575) = Ok "(1024.0 KB)" ∧
  format_size (Some 2150) = Ok "(2.1 KB)" ∧
  format_size (Some 1073741824) = Ok "(1.0 GB)" ∧
  format_size (Some 123456789) = Ok "(117.74 MB)" ∧
  format_size (Some (1024 ^ 4 - 1)) = Ok "(1024.0 GB)" ∧
  format_size (Some (-1)) = Raise ValueError.
Proof. repeat split. Qed.

Example escape_sample :
  escape_markdown_v2 "A_title (live)." = "A\_title \(live\)\.".
Proof. reflexivity. Qed.

Example build_keyboard_sample :
  build_keyboard (Some "abc123") sample_formats =
  Ok (sample_video_rows ++ [[Button "🎵 Audio (3.81 MB)" "audio:abc123:251"]]).
Proof. vm_compute. reflexivity. Qed.

Example parse_token_extra_colon :
  parse_token "video:abc:123:720" = Raise ValueError.
Proof. reflexivity. Qed.

Example url_handler_sample :
  calls (snd (url_handler (cooperative sample_info) "https://youtu.be/abc123"
                (initial_world ∅ ∅)))
  = [ReplyText msg_processing; ExtractInfo "https://youtu.be/abc123";
     DeleteMessage;
     ReplyTextMarkup "*A\_title \(live\)\.*"
       (sample_video_rows ++ [[Button "🎵 Audio (3.81 MB)" "audio:abc123:251"]])].
Proof. vm_compute. reflexivity. Qed.

Example download_sample :
  let r := download_button_callback (cooperative sample_info)
             "video:abc123:720" 42 7 (initial_world ∅ {["video_title" := "T"]}) in
  r.1 = Ok () ∧
  calls r.2 =
    [Answer; EditCaption msg_preparing false;
     Download (YdlOpts
                 "bestvideo[height<=720][ext=mp4]+bestaudio[ext=m4a]/best[height<=720][ext=mp4]/best"
                 "42_abc123.mp4" true true "mp4")
              "https://www.youtube.com/watch?v=abc123";
     EditCaption msg_uploading false;
     SendVideo 7 "42_abc123.mp4" "T";
     DeleteMessage] ∧
  elements (files r.2) = [].
Proof. vm_compute. repeat split. Qed.

Example download_failure_sample :
  let r := download_button_callback
             (hostile 9 ValueError (DownloadError "blocked"))
             "audio:abc123:140" 42 7 (initial_world {["notes.txt"]} ∅) in
  r.1 = Ok () ∧
  calls r.2 =
    [Answer; EditCaption msg_preparing false;
     Download (YdlOpts "140" "42_abc123.m4a" true true "mp4")
              "https://www.youtube.com/watch?v=abc123";
     EditCaption msg_download_failed true] ∧
  elements (files r.2) = ["notes.txt"].
Proof. vm_compute. repeat split. Qed.

End Samples.

(** * Further properties of the formatting helpers *)

Section FormatSizeMore.
Import Helpers.

Lemma round2_range (n p : Z) :
  0 < p → p ≤ n → n < 1024 * p → 100 ≤ round2 n p ≤ 102400.
Proof.
  intros Hp Hlo Hhi. unfold round2.
  pose proof (Z.div_mod (100 * n) p ltac:(lia)) as Hdm.
  pose proof (Z.mod_pos_bound (100 * n) p Hp) as Hr.
  set (q := 100 * n / p) in *. set (r := (100 * n) mod p) in *.
  assert (100 ≤ q) by nia. assert (q ≤ 102399) by nia.
  repeat case_match; lia.
Qed.

Lemma round2_top (n p : Z) :
  0 < p → n < 1024 * p → 200 * (1024 * p - n) < p → round2 n p = 102400.
Proof.
  intros Hp Hhi Hnear. unfold round2.
  pose proof (Z.div_mod (100 * n) p ltac:(lia)) as Hdm.
  pose proof (Z.mod_pos_bound (100 * n) p Hp) as Hr.
  set (q := 100 * n / p) in *. set (r := (100 * n) mod p) in *.
  assert (q = 102399) by nia.
  destruct (Z.ltb_spec (2 * r) p); [nia|].
  destruct (Z.ltb_spec p (2 * r)); [lia|nia].
Qed.

Lemma pow_1024_succ (i : Z) : 0 ≤ i → 1024 ^ (i + 1) = 1024 * 1024 ^ i.
Proof. intros Hi. rewrite Z.pow_add_r by lia. lia. Qed.

(** The number [format_size] prints is never below 1.0 and never above
    1024.0: for a byte count from 1 up to (not including) [1024^4] the
    result is the text of [c] hundredths for some [c] between 100 and
    102400, followed by a unit of the table. *)
Theorem format_size_value_range (n : Z) :
  1 ≤ n → n < 1024 ^ 4 →
  ∃ c u,
    100 ≤ c ≤ 102400 ∧ u ∈ size_name ∧
    format_size (Some n) = Ok ("(" +:+ str_float2 c +:+ " " +:+ u +:+ ")").
Proof.
  intros Hn Hlt.
  destruct (log1024_floor_spec n Hn) as (Hi & Hlo & Hhi).
  pose proof (log1024_floor_small n Hn Hlt) as Hsmall.
  destruct (size_name_lookup _ Hsmall) as (u & Hu & Hin).
  exists (round2 n (1024 ^ log1024_floor n)), u. split; [|split; [exact Hin|]].
  - apply round2_range; [by apply Z.pow_pos_nonneg|exact Hlo|].
    by rewrite <- pow_1024_succ.
  - rewrite format_size_unfold by exact Hn. by rewrite Hu.
Qed.

Lemma format_size_value_range_witness :
  ∃ c u, 100 ≤ c ≤ 102400 ∧ u ∈ size_name ∧
         format_size (Some 1048575) = Ok ("(" +:+ str_float2 c +:+ " " +:+ u +:+ ")").
Proof. apply (format_size_value_range 1048575); [lia|reflexivity]. Defined.

(** Just below a power of 1024 the rounding reaches 1024.0 while the unit
    is still the smaller one: a byte count of magnitude [i] that is
    within half a hundredth of [1024^(i+1)] is printed as "1024.0" with
    the unit of index [i] (so one byte less than a mebibyte is shown as
    1024.0 KB, not as 1.0 MB). *)
Theorem format_size_rounds_up_to_1024 (n i : Z) (u : string) :
  0 ≤ i ≤ 3 → size_name !! Z.to_nat i = Some u →
  1024 ^ i ≤ n < 1024 ^ (i + 1) →
  200 * (1024 ^ (i + 1) - n) < 1024 ^ i →
  format_size (Some n) = Ok ("(1024.0 " +:+ u +:+ ")").
Proof.
  intros Hi Hu Hn Hnear.
  assert (Hp : 0 < 1024 ^ i) by (apply Z.pow_pos_nonneg; lia).
  rewrite format_size_unfold by lia.
  rewrite (log1024_floor_unique n i) by (lia || done). rewrite Hu.
  rewrite pow_1024_succ in Hn, Hnear by lia.
  rewrite round2_top by lia. reflexivity.
Qed.

Lemma format_size_rounds_up_to_1024_witness :
  format_size (Some (1024 ^ 3 - 1)) = Ok "(1024.0 MB)".
Proof.
  apply (format_size_rounds_up_to_1024 (1024 ^ 3 - 1) 2 "MB");
    [lia|reflexivity|lia|lia].
Defined.

(** The inputs on which [format_size] returns: a missing size, and the
    byte counts from 0 up to (not including) [1024^4]. A negative size
    raises [ValueError] (the logarithm is undefined), a size from
    [1024^4] on raises [IndexError]. *)
Theorem format_size_domain (size_bytes : option Z) :
  (is_Ok (format_size size_bytes) ↔
     size_bytes = None ∨ ∃ n, size_bytes = Some n ∧ 0 ≤ n < 1024 ^ 4) ∧
  (∀ n, size_bytes = Some n → n < 0 → format_size size_bytes = Raise ValueError) ∧
  (∀ n, size_bytes = Some n → 1024 ^ 4 ≤ n →
        format_size size_bytes = Raise IndexError).
Proof.
  assert (Hneg : ∀ n, n < 0 → format_size (Some n) = Raise ValueError).
  { intros n Hn. unfold format_size.
    destruct (Z.eqb_spec n 0); [lia|]. by destruct (Z.ltb_spec n 0); [|lia]. }
  assert (Hbig : ∀ n, 1024 ^ 4 ≤ n → format_size (Some n) = Raise IndexError).
  { intros n Hn.
    assert (1 ≤ n) by (change (1024 ^ 4) with 1099511627776 in Hn; lia).
    rewrite format_size_unfold by done.
    pose proof (log1024_floor_large n Hn).
    assert (Hnone : size_name !! Z.to_nat (log1024_floor n) = None)
      by (apply lookup_ge_None; simpl; lia).
    by rewrite Hnone. }
  split; [|split].
  - split.
    + destruct size_bytes as [n|]; [|by left]. intros [s Hs]. right.
      exists n. split; [done|].
      destruct (Z.lt_ge_cases n 0); [by rewrite Hneg in Hs|].
      destruct (Z.lt_ge_cases n (1024 ^ 4)); [lia|by rewrite Hbig in Hs].
    + intros [->|(n & -> & Hn)]; [by eexists|].
      destruct (decide (n = 0)) as [->|]; [by eexists|].
      destruct (format_size_below_tebibyte n) as (i & u & _ & _ & _ & _ & -> & _);
        [lia..|].
      by eexists.
  - intros n -> Hn. by apply Hneg.
  - intros n -> Hn. by apply Hbig.
Qed.

End FormatSizeMore.

Section EscapeMore.
Import Helpers.

(** Different texts have different escaped forms. *)
Theorem escape_markdown_v2_injective (s t : string) :
  s ≠ t → escape_markdown_v2 s ≠ escape_markdown_v2 t.
Proof.
  intros Hne Heq. apply Hne.
  rewrite <- (unescape_escape s), <- (unescape_escape t). by rewrite Heq.
Qed.

Lemma escape_markdown_v2_injective_witness :
  escape_markdown_v2 "a_b" ≠ escape_markdown_v2 "a\_b".
Proof. apply (escape_markdown_v2_injective "a_b" "a\_b"). discriminate. Defined.

(** The escaper leaves a text as it is exactly when the text has no
    character of the punctuation set; in particular escaping an escaped
    text with such a character changes it again. *)
Theorem escape_markdown_v2_fixed_points (text : string) :
  escape_markdown_v2 text = text ↔
  count_chars (λ c, char_in c escape_chars) text = 0%nat.
Proof.
  split.
  - intros Hfix. pose proof (escape_length text) as Hlen.
    rewrite Hfix in Hlen. lia.
  - induction text as [|c rest IH]; [done|].
    cbn [count_chars]. rewrite escape_cons. unfold escape_char.
    destruct (char_in c escape_chars); [intros; lia|].
    intros Hrest. rewrite app_cons, app_empty_l. f_equal. apply IH. lia.
Qed.

(** In the output every character of the punctuation set stands right
    after a backslash. *)
Theorem escaped_punctuation_follows_backslash (text : string) (i : nat) (c : ascii) :
  String.get i (escape_markdown_v2 text) = Some c →
  char_in c escape_chars = true →
  ∃ j, i = S j ∧ String.get j (escape_markdown_v2 text) = Some backslash.
Proof.
  revert i. induction text as [|c0 rest IH]; intros i; [by destruct i|].
  rewrite escape_cons. unfold escape_char.
  destruct (char_in c0 escape_chars) eqn:Hc0; rewrite !app_cons, app_empty_l.
  - destruct i as [|[|k]]; cbn [String.get].
    + intros [= <-] Hc. vm_compute in Hc. discriminate Hc.
    + intros _ _. by exists 0%nat.
    + intros Hget Hc. destruct (IH _ Hget Hc) as (j & -> & Hj).
      by exists (S (S j)).
  - destruct i as [|k]; cbn [String.get].
    + intros Heq Hc. injection Heq as Heq. subst.
      rewrite Hc in Hc0. discriminate Hc0.
    + intros Hget Hc. destruct (IH _ Hget Hc) as (j & -> & Hj).
      by exists (S j).
Qed.

Lemma escaped_punctuation_follows_backslash_witness :
  ∃ j, 2%nat = S j ∧ String.get j (escape_markdown_v2 "a_b") = Some backslash.
Proof.
  apply (escaped_punctuation_follows_backslash "a_b" 2 "_"); reflexivity.
Defined.

End EscapeMore.

(** * Further properties of tokens and paths *)

Section TokensMore.
Import Helpers Link SelectionHandler.

Lemma split_on_length (sep : ascii) (s : string) :
  length (split_on sep s) = S (count_chars (λ c, Ascii.eqb c sep) s).
Proof.
  induction s as [|c s IH]; [done|]. simpl.
  destruct (Ascii.eqb c sep); simpl; [by rewrite IH|].
  destruct (split_on sep s); simpl in *; lia.
Qed.

Lemma split_on_fields (sep : ascii) (s : string) :
  Forall (λ field, char_in sep field = false) (split_on sep s).
Proof.
  induction s as [|c s IH]; [by repeat constructor|]. simpl.
  destruct (Ascii.eqb c sep) eqn:Hc; [by constructor|].
  destruct (split_on sep s) as [|field fields] eqn:Hs;
    [by apply split_on_nonempty in Hs|].
  apply Forall_cons in IH as [Hfield Hfields]. constructor; [|done].
  simpl. by rewrite Ascii.eqb_sym, Hc.
Qed.

Lemma concat_split_on (sep : ascii) (s : string) :
  String.concat (String sep "") (split_on sep s) = s.
Proof.
  induction s as [|c s IH]; [done|]. simpl.
  destruct (Ascii.eqb_spec c sep) as [->|Hne].
  - pose proof (split_on_nonempty sep s).
    destruct (split_on sep s) as [|field fields]; [done|].
    rewrite <- IH. reflexivity.
  - destruct (split_on sep s) as [|field fields] eqn:Hs;
      [by apply split_on_nonempty in Hs|].
    destruct fields; simpl in *; by rewrite <- IH.
Qed.

(** Reading a token succeeds exactly when it has two ':' characters; any
    other token makes the unpacking raise [ValueError]. *)
Theorem parse_token_needs_two_colons (data : string) :
  (is_Ok (parse_token data) ↔ count_chars is_colon data = 2%nat) ∧
  (count_chars is_colon data ≠ 2%nat → parse_token data = Raise ValueError).
Proof.
  pose proof (split_on_length colon data) as Hlen. unfold parse_token.
  fold is_colon in Hlen.
  destruct (split_on colon data) as [|a [|b [|c [|d l]]]]; simpl in Hlen;
    (split; [split; [intros [? ?]|intros ?]|intros ?]);
    try done; try lia; by eexists.
Qed.

(** A token that is read was made of its three fields: the fields hold no
    ':' and, joined by ':', give the token back. *)
Theorem parse_token_inverse (data download_type video_id quality_or_id : string) :
  parse_token data = Ok (download_type, video_id, quality_or_id) ↔
  no_colon download_type ∧ no_colon video_id ∧ no_colon quality_or_id ∧
  data = download_type +:+ ":" +:+ video_id +:+ ":" +:+ quality_or_id.
Proof.
  split.
  - unfold parse_token. intros Hparse.
    pose proof (split_on_fields colon data) as Hfields.
    pose proof (concat_split_on colon data) as Hjoin.
    destruct (split_on colon data) as [|a [|b [|c [|d l]]]]; try done.
    injection Hparse as -> -> ->.
    apply Forall_cons in Hfields as [Ha Hfields].
    apply Forall_cons in Hfields as [Hb Hfields].
    apply Forall_cons in Hfields as [Hc _].
    repeat split; try done; by rewrite <- Hjoin.
  - intros (Ha & Hb & Hc & ->). by apply parse_token_fields.
Qed.

Lemma str_Z_inj (a b : Z) : str_Z a = str_Z b → a = b.
Proof.
  assert (Hnorm : ∀ z, Z.to_int z ≠ Decimal.Pos Decimal.Nil
                       ∧ Z.to_int z ≠ Decimal.Neg Decimal.Nil).
  { intros [|p|p]; simpl; split; try done;
      intros [= Hp]; by apply DecimalPos.Unsigned.to_uint_nonnil in Hp. }
  unfold str_Z. intros Heq. apply DecimalZ.to_int_inj.
  destruct (Hnorm a) as [Ha1 Ha2]. destruct (Hnorm b) as [Hb1 Hb2].
  pose proof (NilZero.isi _ Ha1 Ha2) as Ha.
  pose proof (NilZero.isi _ Hb1 Hb2) as Hb.
  rewrite Heq in Ha. congruence.
Qed.

Lemma app_same_length_inj (s1 s2 t1 t2 : string) :
  String.length t1 = String.length t2 →
  s1 +:+ t1 = s2 +:+ t2 → s1 = s2 ∧ t1 = t2.
Proof.
  intros Hlen. revert s2. induction s1 as [|c s1 IH]; intros [|d s2];
    rewrite ?app_cons, ?app_empty_l.
  - done.
  - intros Heq. apply (f_equal String.length) in Heq.
    rewrite <- app_cons, app_length_str in Heq. simpl in Heq. lia.
  - intros Heq. apply (f_equal String.length) in Heq.
    rewrite <- app_cons, app_length_str in Heq. simpl in Heq. lia.
  - intros [= -> Heq]. destruct (IH _ Heq) as [-> ->]. done.
Qed.

(** The local path determines the requester, the video and whether the
    download is audio: two downloads share a path only if they are by the
    same requester, for the same video id, and both audio or both not. *)
Theorem file_path_injective (u1 u2 : Z) (k1 k2 v1 v2 : string) :
  file_path u1 k1 v1 = file_path u2 k2 v2 →
  u1 = u2 ∧ v1 = v2 ∧ (k1 = "audio" ↔ k2 = "audio").
Proof.
  unfold file_path. intros Heq.
  assert (Hu : u1 = u2).
  { apply str_Z_inj.
    assert (Hsplit : ∀ u rest, split_on "_" (str_Z u +:+ "_" +:+ rest)
                               = str_Z u :: split_on "_" rest).
    { intros u rest. change ("_" +:+ rest) with (String "_"%char rest).
      apply split_on_field. by apply str_Z_chars. }
    apply (f_equal (split_on "_")) in Heq. rewrite !Hsplit in Heq.
    by injection Heq. }
  subst u2. apply (inj (String.app _)) in Heq. apply (inj (String.app _)) in Heq.
  set (e1 := if String.eqb k1 "audio" then "m4a" else "mp4") in *.
  set (e2 := if String.eqb k2 "audio" then "m4a" else "mp4") in *.
  apply app_same_length_inj in Heq as [-> He].
  - split; [done|]. split; [done|]. unfold e1, e2 in He.
    destruct (String.eqb_spec k1 "audio"), (String.eqb_spec k2 "audio");
      try done; by apply (inj (String.app ".")) in He.
  - unfold e1, e2. by destruct (String.eqb k1 "audio"), (String.eqb k2 "audio").
Qed.

Lemma file_path_injective_witness :
  (42 = 42) ∧ "abc123" = "abc123" ∧ ("video" = "audio" ↔ "other" = "audio").
Proof. exact (file_path_injective 42 42 "video" "other" "abc123" "abc123" eq_refl). Defined.

End TokensMore.

(** * Further properties of the keyboard *)

Section KeyboardMore.
Import Helpers Link.

Lemma filter_none {A} (P : A → Prop) `{!∀ x, Decision (P x)} (l : list A) :
  (∀ x, x ∈ l → ¬ P x) → filter P l = [].
Proof.
  induction l as [|x l IH]; intros Hall; [done|].
  rewrite filter_cons, decide_False by (apply Hall; by left).
  apply IH. intros y Hy. apply Hall. by right.
Qed.

Lemma filter_shorter {A} (P : A → Prop) `{!∀ x, Decision (P x)} (l : list A) (x : A) :
  x ∈ l → ¬ P x → (length (filter P l) < length l)%nat.
Proof.
  intros Hin Hx. induction l as [|y l IH]; [by apply elem_of_nil in Hin|].
  pose proof (length_filter P l) as Hle.
  rewrite filter_cons. apply elem_of_cons in Hin as [<-|Hin].
  - rewrite decide_False by done. simpl. lia.
  - specialize (IH Hin). case_decide; simpl; lia.
Qed.

Lemma first_per_height_length (seen : gset Z) (l : list format_desc) :
  (length (first_per_height seen l) ≤ length l)%nat.
Proof.
  revert seen. induction l as [|f l IH]; intros seen; simpl; [done|].
  destruct (height f) as [h|]; [|specialize (IH seen); lia].
  destruct (negb (h =? 0) && bool_decide (h ∉ seen)); simpl;
    [specialize (IH ({[h]} ∪ seen))|specialize (IH seen)]; lia.
Qed.

Lemma candidates_disjoint (f : format_desc) :
  is_audio_candidate f = true → is_video_candidate f = false.
Proof.
  unfold is_audio_candidate, is_video_candidate.
  intros [[_ Hv%bool_decide_eq_true]%andb_true_iff _]%andb_true_iff.
  rewrite bool_decide_false; [done|]. by intros [].
Qed.

Lemma build_keyboard_split (video_id : option string)
    (formats : list format_desc) (kb : list (list button)) :
  build_keyboard video_id formats = Ok kb ↔
  ∃ kv ka, video_buttons video_id formats = Ok kv ∧
           audio_buttons video_id formats = Ok ka ∧ kb = kv ++ ka.
Proof.
  unfold build_keyboard. split.
  - destruct (video_buttons video_id formats) as [kv|]; simpl; [|done].
    destruct (audio_buttons video_id formats) as [ka|]; simpl; [|done].
    intros [= <-]. by exists kv, ka.
  - intros (kv & ka & -> & -> & ->). reflexivity.
Qed.

(** The keyboard is empty exactly when no format passes the video filter
    and no format passes the audio filter; this is the only case in which
    the user is told that no suitable format was found. *)
Theorem keyboard_empty_iff_no_candidate (video_id : option string)
    (formats : list format_desc) :
  build_keyboard video_id formats = Ok [] ↔
  ∀ f, f ∈ formats → is_video_candidate f = false ∧ is_audio_candidate f = false.
Proof.
  rewrite build_keyboard_split. split.
  - intros (kv & ka & Hkv & Hka & Hnil).
    symmetry in Hnil. apply app_eq_nil in Hnil as [-> ->].
    apply video_buttons_rows in Hkv. apply Forall2_nil_inv_l in Hkv.
    pose proof (best_audio_spec formats) as Hbest.
    unfold audio_buttons in Hka.
    destruct (best_audio formats) as [g|].
    { by destruct (format_size (file_size g)). }
    intros f Hf. split; [|by apply Hbest].
    destruct (is_video_candidate f) eqn:Hv; [|done].
    destruct (first_per_height_complete ∅ (video_formats formats) f)
      as (g & Hg & _).
    + rewrite video_formats_perm. by apply list_elem_of_filter.
    + by apply video_candidate_truthy.
    + apply not_elem_of_empty.
    + rewrite Hkv in Hg. by apply elem_of_nil in Hg.
  - intros Hnone. exists [], []. split; [|split; [|done]].
    + unfold video_buttons, video_formats.
      rewrite filter_none; [done|].
      intros f Hf Hv. destruct (Hnone f Hf) as [Hv' _]. congruence.
    + unfold audio_buttons, best_audio.
      destruct (List.find _ _) as [g|] eqn:Hfind; [|done].
      apply List.find_some in Hfind as [Hin Hg].
      apply list_elem_of_In in Hin. apply (proj1 (elem_of_rev g formats)) in Hin.
      destruct (Hnone g Hin) as [_ Ha]. congruence.
Qed.

(** The shape of a keyboard: rows of exactly one button; first the video
    rows, whose tokens are video tokens of this video id, then at most
    one audio row, whose token is the audio token of one of the formats;
    and never more rows than there are formats. *)
Theorem keyboard_shape (video_id : option string) (formats : list format_desc)
    (kb : list (list button)) :
  build_keyboard video_id formats = Ok kb →
  ∃ kv ka,
    kb = kv ++ ka ∧
    Forall (λ row, ∃ label h,
              row = [Button label (video_token (str_id video_id) h)]) kv ∧
    (ka = [] ∨
     ∃ label f, f ∈ formats ∧
       ka = [[Button label (audio_token (str_id video_id) (format_id f))]]) ∧
    Forall (λ row, length row = 1%nat) kb ∧
    (length kb ≤ length formats)%nat.
Proof.
  intros (kv & ka & Hkv & Hka & ->)%build_keyboard_split.
  pose proof (video_buttons_rows _ _ _ Hkv) as Hrows.
  assert (Hvideo : Forall (λ row, ∃ label h,
            row = [Button label (video_token (str_id video_id) h)]) kv).
  { apply Forall_forall. intros row Hrow.
    apply list_elem_of_lookup in Hrow as [i Hi].
    destruct (Forall2_lookup_l _ _ _ _ _ Hrows Hi) as (f & _ & size & _ & ->).
    by eexists _, _. }
  pose proof (best_audio_spec formats) as Hbest.
  assert (Hlen : (length kv ≤ length (filter (λ f, is_video_candidate f = true) formats))%nat).
  { rewrite (Forall2_length _ _ _ Hrows), <- (video_formats_perm formats).
    apply first_per_height_length. }
  unfold audio_buttons in Hka.
  destruct (best_audio formats) as [g|].
  - destruct (format_size (file_size g)) as [size|]; simpl in Hka; [|done].
    injection Hka as <-. destruct Hbest as (Hg & earlier & later & Hsplit & _).
    assert (Hin : g ∈ formats).
    { rewrite Hsplit. apply elem_of_app. right. by left. }
    exists kv, [[Button (audio_label size)
                         (audio_token (str_id video_id) (format_id g))]].
    split; [done|]. split; [done|]. split; [right; by eexists _, _|]. split.
    + apply Forall_app. split; [|by repeat constructor].
      eapply Forall_impl; [exact Hvideo|]. by intros row (? & ? & ->).
    + rewrite length_app. simpl.
      assert (Hshort : (length (filter (λ f, is_video_candidate f = true) formats)
                        < length formats)%nat).
      { apply (filter_shorter _ formats g Hin). simpl.
        by rewrite (candidates_disjoint g Hg). }
      lia.
  - injection Hka as <-. exists kv, []. rewrite app_nil_r.
    split; [done|]. split; [done|]. split; [by left|]. split.
    + eapply Forall_impl; [exact Hvideo|]. by intros row (? & ? & ->).
    + pose proof (length_filter (λ f, is_video_candidate f = true) formats). lia.
Qed.

Lemma keyboard_shape_witness :
  ∃ kv ka, sample_video_rows ++ [[Button "🎵 Audio (3.81 MB)" "audio:abc123:251"]]
           = kv ++ ka ∧ (length (kv ++ ka) ≤ length sample_formats)%nat.
Proof.
  destruct (keyboard_shape (Some "abc123") sample_formats
              (sample_video_rows ++ [[Button "🎵 Audio (3.81 MB)" "audio:abc123:251"]]))
    as (kv & ka & Hkb & _ & _ & _ & Hlen).
  - vm_compute. reflexivity.
  - exists kv, ka. split; [exact Hkb|]. by rewrite <- Hkb.
Defined.

End KeyboardMore.

(** * Further properties of the handlers *)

Section Frames.

Lemma preserves_ret {A C} (proj : world → C) (a : A) : preserves proj (ret a).
Proof. by intros w. Qed.

Lemma preserves_lift {A C} (proj : world → C) (r : result A) :
  preserves proj (lift r).
Proof. by intros w. Qed.

Lemma preserves_bind {A B C} (proj : world → C) (m : M A) (k : A → M B) :
  preserves proj m → (∀ a, preserves proj (k a)) → preserves proj (bind m k).
Proof.
  intros Hm Hk w. unfold bind. specialize (Hm w).
  destruct (m w) as [[a|e] w']; simpl in *; [|done]. by rewrite Hk.
Qed.

Lemma preserves_try_except {A C} (proj : world → C) (body : M A)
    (handler : exn → M A) :
  preserves proj body → (∀ e, preserves proj (handler e)) →
  preserves proj (try_except body handler).
Proof.
  intros Hm Hk w. unfold try_except. specialize (Hm w).
  destruct (body w) as [[a|e] w']; simpl in *; [done|]. by rewrite Hk.
Qed.

Lemma preserves_try_finally {A C} (proj : world → C) (body : M A)
    (cleanup : M unit) :
  preserves proj body → preserves proj cleanup →
  preserves proj (try_finally body cleanup).
Proof.
  intros Hm Hc w. unfold try_finally. specialize (Hm w).
  destruct (body w) as [r w']. specialize (Hc w').
  destruct (cleanup w') as [[[]|e] w'']; simpl in *; congruence.
Qed.

Lemma tg_keeps_files (o : oracle) (c : call) : preserves files (tg o c).
Proof. intros w. unfold tg. by destruct (transport o (calls w) c). Qed.

Lemma tg_keeps_user_data (o : oracle) (c : call) : preserves user_data (tg o c).
Proof. intros w. unfold tg. by destruct (transport o (calls w) c). Qed.

Lemma tg_refused (o : oracle) (c : call) (w : world) (e : exn) :
  (tg o c w).1 = Raise e → refused o (tg o c w).2 e.
Proof.
  unfold tg. destruct (transport o (calls w) c) as [msg|] eqn:Hc; simpl; [|done].
  intros [= <-]. by exists (calls w), c, msg.
Qed.

Lemma tg_calls (o : oracle) (c : call) (w : world) :
  (tg o c w).2 = World (files w) (user_data w) (calls w ++ [c]).
Proof. unfold tg. by destruct (transport o (calls w) c). Qed.

Lemma tg_cases (o : oracle) (c : call) (w : world) :
  tg o c w = (Ok (), record_call c w) ∨
  ∃ msg, tg o c w = (Raise (OtherException msg), record_call c w).
Proof. unfold tg. destruct (transport o (calls w) c); eauto. Qed.

Lemma tg_ok (o : oracle) (c : call) (w : world) :
  cooperates o →
  tg o c w = (Ok (), World (files w) (user_data w) (calls w ++ [c])).
Proof. intros Hcoop. unfold tg. by rewrite Hcoop. Qed.

End Frames.

Section LinkHandlerMore.
Import Helpers Link LinkHandler.

Lemma on_error_is_edit (o : oracle) (e : exn) :
  ∃ text, on_error o e = tg o (EditText text).
Proof. destruct e; by eexists. Qed.

(** The Link Handler never touches the local files. *)
Theorem url_handler_keeps_files (o : oracle) (url : string) (w : world) :
  files (url_handler o url w).2 = files w.
Proof.
  apply (preserves_bind files); [apply tg_keeps_files|]. intros _.
  apply preserves_try_except.
  - apply preserves_bind; [by intros ?|]. intros info.
    apply preserves_bind; [by intros ?|]. intros _.
    apply preserves_bind; [apply preserves_lift|]. intros [|row keyboard].
    + apply tg_keeps_files.
    + apply preserves_bind; [apply tg_keeps_files|]. intros _.
      destruct (nonempty _); apply tg_keeps_files.
  - intros e. destruct (on_error_is_edit o e) as [text ->]. apply tg_keeps_files.
Qed.

Lemma failure_text_cases (e : exn) :
  failure_text e ∈ [msg_unavailable; msg_invalid_url; msg_unsupported; msg_unexpected].
Proof.
  destruct e as [msg| | | |msg]; simpl;
    try (do 3 right; by left).
  unfold classify.
  destruct (_ || _); [by left|].
  destruct (contains _ _); [right; by left|do 2 right; by left].
Qed.

Lemma on_error_failure_text (o : oracle) (e : exn) :
  on_error o e = tg o (EditText (failure_text e)).
Proof. by destruct e. Qed.

(** An exception leaves the Link Handler in three ways only. The update
    carries no message: [AttributeError], before any call. The transport
    refuses the placeholder reply. Or the body of the [try] has raised
    and the transport refuses the edit made by the [except] clause, whose
    text is one of the four error texts. So a refusal inside the [try]
    (of the no-formats edit, of the deletion, of the message with the
    grid) and whatever extraction or the rendering of the buttons raises
    never leave the handler by themselves. *)
Theorem url_handler_raises_only_transport_errors (o : oracle)
    (message : option string) (w : world) (e : exn) :
  (url_handler_on o message w).1 = Raise e →
  (message = None ∧ e = attribute_error ∧ (url_handler_on o message w).2 = w) ∨
  ∃ url msg,
    message = Some url ∧ e = OtherException msg ∧
    ((transport o (calls w) (ReplyText msg_processing) = Some msg ∧
      calls (url_handler_on o message w).2 = calls w ++ [ReplyText msg_processing]) ∨
     ∃ before e1,
       transport o (calls w) (ReplyText msg_processing) = None ∧
       (resolve o url (World (files w) (user_data w)
                             (calls w ++ [ReplyText msg_processing]))).1 = Raise e1 ∧
       (failure_text e1 ∈ [msg_unavailable; msg_invalid_url; msg_unsupported;
                           msg_unexpected]) ∧
       (msg_no_formats ∉ [msg_unavailable; msg_invalid_url; msg_unsupported;
                          msg_unexpected]) ∧
       calls (url_handler_on o message w).2 = before ++ [EditText (failure_text e1)] ∧
       transport o before (EditText (failure_text e1)) = Some msg).
Proof.
  destruct message as [url|]; simpl; [|intros [= <-]; by left].
  set (w1 := World (files w) (user_data w) (calls w ++ [ReplyText msg_processing])).
  assert (Hrun : url_handler o url w =
            match transport o (calls w) (ReplyText msg_processing) with
            | Some msg => (Raise (OtherException msg), w1)
            | None =>
                match resolve o url w1 with
                | (Ok a, w2) => (Ok a, w2)
                | (Raise e1, w2) => tg o (EditText (failure_text e1)) w2
                end
            end).
  { unfold url_handler, bind, tg at 1, try_except.
    destruct (transport o (calls w) (ReplyText msg_processing)); [reflexivity|].
    change (record_call (ReplyText msg_processing) w) with w1.
    destruct (resolve o url w1) as [[[]|e1] w2]; [reflexivity|].
    by rewrite on_error_failure_text. }
  rewrite Hrun. clear Hrun. intros Hraise. right. exists url.
  destruct (transport o (calls w) (ReplyText msg_processing)) as [msg|] eqn:Hreply.
  - injection Hraise as <-. exists msg. split; [done|]. split; [done|]. by left.
  - destruct (resolve o url w1) as [[[]|e1] w2]; [done|].
    unfold tg in Hraise |- *.
    destruct (transport o (calls w2) (EditText (failure_text e1))) as [msg|] eqn:Hedit;
      [|done].
    injection Hraise as <-. exists msg.
    split; [done|]. split; [done|]. right. exists (calls w2), e1.
    split; [done|]. split; [done|]. split; [apply failure_text_cases|].
    split; [|by split].
    apply (bool_decide_unpack _). vm_compute. exact I.
Qed.

Lemma url_handler_raises_only_transport_errors_witness :
  ∃ url msg,
    Some "https://youtu.be/abc123" = Some url ∧
    OtherException "timed out" = OtherException msg.
Proof.
  destruct (url_handler_raises_only_transport_errors
              (hostile 2 (DownloadError "Private video") ValueError)
              (Some "https://youtu.be/abc123") (initial_world ∅ ∅)
              (OtherException "timed out") eq_refl)
    as [(Hnone & _)|(url & msg & Hurl & He & _)].
  - discriminate Hnone.
  - by exists url, msg.
Defined.

Lemma format_size_raises (size : option Z) (e : exn) :
  format_size size = Raise e → e = ValueError ∨ e = IndexError.
Proof.
  unfold format_size. destruct size as [n|]; [|done].
  destruct (n =? 0); [done|]. destruct (n <? 0); [intros [= <-]; by left|].
  destruct (size_name !! _); [done|]. intros [= <-]. by right.
Qed.

Lemma build_keyboard_raises (video_id : option string)
    (formats : list format_desc) (e : exn) :
  build_keyboard video_id formats = Raise e → e = ValueError ∨ e = IndexError.
Proof.
  assert (Hloop : ∀ l st, for_each (video_step video_id) st l = Raise e →
            e = ValueError ∨ e = IndexError).
  { induction l as [|f l IH]; intros [seen kb]; simpl; [done|].
    destruct (height f) as [h|]; [|apply IH].
    destruct (negb (h =? 0) && bool_decide (h ∉ seen)); [|apply IH].
    destruct (format_size (file_size f)) as [size|e'] eqn:Hsize; simpl.
    - apply IH.
    - intros [= <-]. by eapply format_size_raises. }
  unfold build_keyboard, video_buttons, audio_buttons.
  destruct (for_each _ _ _) as [st|e'] eqn:Hfor; simpl.
  - destruct (best_audio formats) as [g|]; [|done].
    destruct (format_size (file_size g)) as [size|e'] eqn:Hsize; simpl; [done|].
    intros [= <-]. by eapply format_size_raises.
  - intros [= <-]. by eapply Hloop.
Qed.

(** What the Link Handler does once extraction has returned, as a
    function of the keyboard. *)
Lemma url_handler_after_extraction (o : oracle) (url : string) (w : world)
    (info : info_dict) :
  transport o (calls w) (ReplyText msg_processing) = None →
  extract_info o (calls w ++ [ReplyText msg_processing]) url = Ok info →
  let title := default "No Title" (info_title info) in
  let caption := "*" +:+ escape_markdown_v2 title +:+ "*" in
  url_handler o url w =
  try_except
    (bind (lift (build_keyboard (info_id info) (default [] (info_formats info))))
       (λ keyboard,
          match keyboard with
          | [] => tg o (EditText msg_no_formats)
          | _ =>
              bind (tg o DeleteMessage) (λ _,
                match nonempty (info_thumbnail info) with
                | Some photo => tg o (ReplyPhoto photo caption keyboard)
                | None => tg o (ReplyTextMarkup caption keyboard)
                end)
          end))
    (on_error o)
    (World (files w) (<["video_title" := title]> (user_data w))
           (calls w ++ [ReplyText msg_processing; ExtractInfo url])).
Proof.
  intros Hreply Hextract. simpl.
  unfold url_handler, bind at 1, tg at 1. rewrite Hreply.
  unfold try_except, resolve, bind at 1, call_extract_info, record_call.
  simpl. rewrite Hextract. unfold bind at 1, set_user_data. simpl.
  by rewrite <- app_assoc.
Qed.

(** A fault while the buttons are rendered (a size that [format_size]
    cannot print) is reported by the generic message: the placeholder is
    edited once, no grid is sent, and the title has been stored all the
    same. *)
Theorem rendering_fault_reported_as_unexpected (o : oracle) (url : string)
    (w : world) (info : info_dict) (e : exn) :
  transport o (calls w) (ReplyText msg_processing) = None →
  extract_info o (calls w ++ [ReplyText msg_processing]) url = Ok info →
  build_keyboard (info_id info) (default [] (info_formats info)) = Raise e →
  let r := url_handler o url w in
  calls r.2 = calls w ++ [ReplyText msg_processing; ExtractInfo url;
                          EditText msg_unexpected] ∧
  user_data r.2 = <["video_title" := default "No Title" (info_title info)]> (user_data w).
Proof.
  intros Hreply Hextract Hkb. simpl.
  rewrite (url_handler_after_extraction _ _ _ _ Hreply Hextract).
  unfold try_except, bind, lift. rewrite Hkb.
  assert (Hedit : on_error o e = tg o (EditText msg_unexpected))
    by (by destruct (build_keyboard_raises _ _ _ Hkb) as [-> | ->]).
  rewrite Hedit, tg_calls. simpl. by rewrite <- app_assoc.
Qed.

Lemma rendering_fault_reported_as_unexpected_witness :
  calls (snd (url_handler (cooperative oversize_info) "https://youtu.be/abc123"
                (initial_world ∅ ∅)))
  = [ReplyText msg_processing; ExtractInfo "https://youtu.be/abc123";
     EditText msg_unexpected].
Proof.
  exact (proj1 (rendering_fault_reported_as_unexpected (cooperative oversize_info)
           "https://youtu.be/abc123" (initial_world ∅ ∅) oversize_info IndexError
           eq_refl eq_refl eq_refl)).
Defined.

(** With a transport that performs every call and a keyboard that is not
    empty, the Link Handler deletes the placeholder and sends one message
    carrying the grid: a photo when the thumbnail URL is present and not
    empty, a text otherwise; its caption is the escaped title between two
    asterisks. *)
Theorem url_handler_sends_grid (o : oracle) (url : string) (w : world)
    (info : info_dict) (kb : list (list button)) :
  cooperates o →
  extract_info o (calls w ++ [ReplyText msg_processing]) url = Ok info →
  build_keyboard (info_id info) (default [] (info_formats info)) = Ok kb →
  kb ≠ [] →
  let caption := "*" +:+ escape_markdown_v2 (default "No Title" (info_title info))
                   +:+ "*" in
  let r := url_handler o url w in
  r.1 = Ok () ∧
  calls r.2 = calls w ++ [ReplyText msg_processing; ExtractInfo url; DeleteMessage;
                          match info_thumbnail info with
                          | Some (String c photo) =>
                              ReplyPhoto (String c photo) caption kb
                          | _ => ReplyTextMarkup caption kb
                          end].
Proof.
  intros Hcoop Hextract Hkb Hne. simpl.
  rewrite (url_handler_after_extraction _ _ _ _ (Hcoop _ _) Hextract).
  unfold try_except, bind, lift. rewrite Hkb.
  destruct kb as [|row kb]; [done|].
  rewrite tg_ok by done. cbv beta iota. unfold nonempty.
  destruct (info_thumbnail info) as [[|c photo]|]; rewrite tg_ok by done;
    simpl; by rewrite <- !app_assoc.
Qed.

Lemma url_handler_sends_grid_witness :
  (url_handler (cooperative sample_info) "https://youtu.be/abc123"
     (initial_world ∅ ∅)).1 = Ok ().
Proof.
  refine (proj1 (url_handler_sends_grid (cooperative sample_info)
            "https://youtu.be/abc123" (initial_world ∅ ∅) sample_info
            (sample_video_rows ++ [[Button "🎵 Audio (3.81 MB)" "audio:abc123:251"]])
            _ eq_refl _ _)).
  - by intros ??.
  - vm_compute. reflexivity.
  - discriminate.
Defined.

End LinkHandlerMore.

Section SelectionHandlerMore.
Import LinkHandler SelectionHandler.

Lemma on_failure_is_edit (o : oracle) (e : exn) :
  on_failure o e = tg o (EditCaption (failure_caption e) true).
Proof. by destruct e. Qed.

Lemma cleanup_keeps_user_data (path : string) : preserves user_data (cleanup path).
Proof.
  intros w. unfold cleanup, bind, path_exists, os_remove, ret. simpl.
  by case_bool_decide.
Qed.

Lemma protected_body_keeps_user_data (o : oracle) (chat_id : Z)
    (download_type url path : string) (opts : ydl_opts) :
  preserves user_data
    (try_except (fetch_and_upload o chat_id download_type url path opts)
                (on_failure o)).
Proof.
  intros w.
  by destruct (fetch_and_upload_files o chat_id download_type url path opts w)
    as (_ & ? & _).
Qed.

(** The Selection Handler reads the session state and never writes it. *)
Theorem callback_keeps_user_data (o : oracle) (data : string)
    (from_user_id chat_id : Z) (w : world) :
  user_data (download_button_callback o data from_user_id chat_id w).2
  = user_data w.
Proof.
  apply (preserves_bind user_data); [apply tg_keeps_user_data|]. intros _.
  apply preserves_bind; [apply preserves_lift|]. intros [[download_type video_id] q].
  apply preserves_bind.
  - apply preserves_try_except; [apply tg_keeps_user_data|]. intros _.
    apply preserves_ret.
  - intros _. apply preserves_try_finally.
    + apply protected_body_keeps_user_data.
    + apply cleanup_keeps_user_data.
Qed.

(** An exception leaves the Selection Handler in three ways only. The
    token does not have three fields: [ValueError], after the event was
    answered and before anything else is done. The transport refuses the
    answer. Or the body of the [try] has raised and the transport refuses
    the caption edit made by the [except] clause. So a failed download, a
    missing file, a refused status edit or a refused upload never leave
    the handler by themselves: when the answer is performed, the token
    has three fields and the caption edits of the [except] clauses are
    performed, the handler returns normally whatever else happens. *)
Theorem callback_raises_only_on_token_or_transport (o : oracle) (data : string)
    (from_user_id chat_id : Z) (w : world) :
  let r := download_button_callback o data from_user_id chat_id w in
  (∀ e, r.1 = Raise e →
     (e = ValueError ∧ parse_token data = Raise ValueError ∧
      transport o (calls w) Answer = None ∧ calls r.2 = calls w ++ [Answer]) ∨
     ∃ msg,
       e = OtherException msg ∧
       ((transport o (calls w) Answer = Some msg ∧ calls r.2 = calls w ++ [Answer]) ∨
        ∃ before e1 download_type video_id quality_or_id,
          transport o (calls w) Answer = None ∧
          parse_token data = Ok (download_type, video_id, quality_or_id) ∧
          (fetch_and_upload o chat_id download_type (watch_url video_id)
             (file_path from_user_id download_type video_id)
             (make_opts (download_format download_type quality_or_id)
                        (file_path from_user_id download_type video_id))
             (World (files w) (user_data w)
                    (calls w ++ [Answer; EditCaption msg_preparing false]))).1
            = Raise e1 ∧
          calls r.2 = before ++ [EditCaption (failure_caption e1) true] ∧
          transport o before (EditCaption (failure_caption e1) true) = Some msg)) ∧
  (transport o (calls w) Answer = None →
   is_Ok (parse_token data) →
   (∀ before e1, transport o before (EditCaption (failure_caption e1) true) = None) →
   r.1 = Ok ()).
Proof.
  intros r.
  assert (Hescape : ∀ e, r.1 = Raise e →
     (e = ValueError ∧ parse_token data = Raise ValueError ∧
      transport o (calls w) Answer = None ∧ calls r.2 = calls w ++ [Answer]) ∨
     ∃ msg,
       e = OtherException msg ∧
       ((transport o (calls w) Answer = Some msg ∧ calls r.2 = calls w ++ [Answer]) ∨
        ∃ before e1 download_type video_id quality_or_id,
          transport o (calls w) Answer = None ∧
          parse_token data = Ok (download_type, video_id, quality_or_id) ∧
          (fetch_and_upload o chat_id download_type (watch_url video_id)
             (file_path from_user_id download_type video_id)
             (make_opts (download_format download_type quality_or_id)
                        (file_path from_user_id download_type video_id))
             (World (files w) (user_data w)
                    (calls w ++ [Answer; EditCaption msg_preparing false]))).1
            = Raise e1 ∧
          calls r.2 = before ++ [EditCaption (failure_caption e1) true] ∧
          transport o before (EditCaption (failure_caption e1) true) = Some msg)).
  { intros e. unfold r.
    destruct (transport o (calls w) Answer) as [msg|] eqn:Hanswer.
    - destruct (callback_stops_early o data from_user_id chat_id w) as [e' He'];
        [left; congruence|].
      rewrite He'. simpl. intros [= <-]. right.
      unfold download_button_callback, bind at 1, tg at 1 in He'.
      rewrite Hanswer in He'. injection He' as <-.
      exists msg. split; [done|]. by left.
    - destruct (parse_token data) as [[[download_type video_id] q]|e'] eqn:Hparse.
      + rewrite (callback_reaches_try _ _ _ _ _ _ _ _ Hanswer Hparse).
        set (w1 := World _ _ _). set (path := file_path _ _ _).
        set (opts := make_opts _ _). set (body := try_except _ _).
        destruct (try_finally_cleanup body path w1) as (Hres & _ & _ & Hcalls).
        rewrite Hres, Hcalls. unfold body, try_except.
        destruct (fetch_and_upload o chat_id download_type (watch_url video_id)
                    path opts w1) as [[[]|e1] w2] eqn:Hbody; [done|].
        rewrite on_failure_is_edit. unfold tg.
        destruct (transport o (calls w2) (EditCaption (failure_caption e1) true))
          as [msg|] eqn:Hedit; [|done].
        simpl. intros [= <-]. right. exists msg. split; [done|]. right.
        exists (calls w2), e1, download_type, video_id, q.
        repeat split; try done. fold path opts. by rewrite Hbody.
      + assert (e' = ValueError) as ->.
        { unfold parse_token in Hparse. by repeat case_match; simplify_eq. }
        destruct (callback_stops_early o data from_user_id chat_id w) as [e' He'];
          [by right|].
        rewrite He'. simpl. intros [= <-]. left.
        unfold download_button_callback, bind at 1, tg at 1 in He'.
        rewrite Hanswer in He'. unfold bind at 1, lift in He'. rewrite Hparse in He'.
        by injection He' as <-. }
  split; [exact Hescape|].
  intros Hanswer [fields Hparse] Hedits.
  destruct (r.1) as [[]|e] eqn:Hr; [done|].
  destruct (Hescape e eq_refl)
    as [(_ & Hbad & _)|(msg & _ & [[Hbad _]|(before & e1 & _ & _ & _ & _ & _ & _ & _ & Hbad)])].
  - congruence.
  - congruence.
  - by rewrite Hedits in Hbad.
Qed.

Lemma callback_raises_only_on_token_or_transport_witness :
  (download_button_callback upload_refusing "video:abc123:720" 42 7
     (initial_world ∅ ∅)).1 = Ok ().
Proof.
  apply (callback_raises_only_on_token_or_transport upload_refusing
           "video:abc123:720" 42 7 (initial_world ∅ ∅)).
  - reflexivity.
  - by eexists.
  - by intros before e1.
Defined.

(** When the download raises, nothing is uploaded: the only further call
    is the edit of the caption, to the download-failed text for a
    [DownloadError] and to the generic text for anything else; the
    handler returns normally if that edit goes through, and what the
    download left at the path is removed. *)
Theorem download_failure_is_reported (o : oracle) (data : string)
    (from_user_id chat_id : Z) (w : world)
    (download_type video_id quality_or_id : string)
    (left : gset string) (e : exn) :
  transport o (calls w) Answer = None →
  parse_token data = Ok (download_type, video_id, quality_or_id) →
  let path := file_path from_user_id download_type video_id in
  let opts := make_opts (download_format download_type quality_or_id) path in
  let history := calls w ++ [Answer; EditCaption msg_preparing false] in
  download o history opts (watch_url video_id) (files w) = (left, Some e) →
  let r := download_button_callback o data from_user_id chat_id w in
  calls r.2 = history ++ [Download opts (watch_url video_id);
                          EditCaption (failure_caption e) true] ∧
  files r.2 = left ∖ {[path]} ∧
  (transport o (history ++ [Download opts (watch_url video_id)])
             (EditCaption (failure_caption e) true) = None → r.1 = Ok ()).
Proof.
  intros Hanswer Hparse path opts history Hdl r. unfold r.
  rewrite (callback_reaches_try _ _ _ _ _ _ _ _ Hanswer Hparse).
  fold path opts history. set (w1 := World (files w) (user_data w) history).
  set (body := try_except _ _).
  assert (Hbody : body w1 =
            tg o (EditCaption (failure_caption e) true)
              (World left (user_data w)
                     (history ++ [Download opts (watch_url video_id)]))).
  { unfold body, try_except, fetch_and_upload, bind at 1, call_download. simpl.
    rewrite Hdl. by rewrite on_failure_is_edit. }
  destruct (try_finally_cleanup body path w1) as (Hres & Hfiles & _ & Hcalls).
  rewrite Hres, Hfiles, Hcalls, Hbody, tg_calls. simpl.
  split; [by rewrite <- app_assoc|]. split; [done|].
  intros Hedit. unfold tg. simpl. by rewrite Hedit.
Qed.

Lemma download_failure_is_reported_witness :
  calls (snd (download_button_callback
                (hostile 9 ValueError (DownloadError "blocked"))
                "audio:abc123:140" 42 7 (initial_world ∅ ∅)))
  = [Answer; EditCaption msg_preparing false;
     Download (make_opts "140" "42_abc123.m4a")
              "https://www.youtube.com/watch?v=abc123";
     EditCaption msg_download_failed true].
Proof.
  exact (proj1 (download_failure_is_reported
           (hostile 9 ValueError (DownloadError "blocked"))
           "audio:abc123:140" 42 7 (initial_world ∅ ∅) "audio" "abc123" "140"
           {["42_abc123.m4a"]} (DownloadError "blocked")
           eq_refl eq_refl eq_refl)).
Defined.

(** When the download returns without an error but there is no file at
    the path, nothing is uploaded: after the "uploading" status the only
    further call is the edit of the caption to the generic error text. *)
Theorem missing_output_is_reported (o : oracle) (data : string)
    (from_user_id chat_id : Z) (w : world)
    (download_type video_id quality_or_id : string) (left : gset string) :
  transport o (calls w) Answer = None →
  parse_token data = Ok (download_type, video_id, quality_or_id) →
  let path := file_path from_user_id download_type video_id in
  let opts := make_opts (download_format download_type quality_or_id) path in
  let history := calls w ++ [Answer; EditCaption msg_preparing false] in
  download o history opts (watch_url video_id) (files w) = (left, None) →
  path ∉ left →
  let r := download_button_callback o data from_user_id chat_id w in
  calls r.2 = history ++ [Download opts (watch_url video_id);
                          EditCaption msg_uploading false;
                          EditCaption msg_unexpected_caption true] ∧
  files r.2 = left.
Proof.
  intros Hanswer Hparse path opts history Hdl Hmissing r. unfold r.
  rewrite (callback_reaches_try _ _ _ _ _ _ _ _ Hanswer Hparse).
  fold path opts history. set (w1 := World (files w) (user_data w) history).
  set (body := try_except _ _).
  assert (Hbody : (body w1).2 =
            World left (user_data w)
                  (history ++ [Download opts (watch_url video_id);
                               EditCaption msg_uploading false;
                               EditCaption msg_unexpected_caption true])).
  { unfold body, try_except, fetch_and_upload, bind at 1, call_download. simpl.
    rewrite Hdl. unfold bind at 1.
    set (w2 := World left _ _). unfold tg at 1.
    destruct (transport o (calls w2) (EditCaption msg_uploading false)) as [msg|].
    - rewrite on_failure_is_edit, tg_calls. simpl. by rewrite <- !app_assoc.
    - unfold bind at 1, get_user_data. unfold bind at 1, open_rb. simpl.
      rewrite bool_decide_false by done.
      rewrite on_failure_is_edit, tg_calls. simpl. by rewrite <- !app_assoc. }
  destruct (try_finally_cleanup body path w1) as (_ & Hfiles & _ & Hcalls).
  rewrite Hfiles, Hcalls, Hbody. simpl. split; [done|].
  apply difference_disjoint_L. by apply disjoint_singleton_r.
Qed.

Lemma missing_output_is_reported_witness :
  calls (snd (download_button_callback forgetful "video:abc123:720" 42 7
                (initial_world ∅ ∅)))
  = [Answer; EditCaption msg_preparing false;
     Download (make_opts (download_format "video" "720") "42_abc123.mp4")
              "https://www.youtube.com/watch?v=abc123";
     EditCaption msg_uploading false;
     EditCaption msg_unexpected_caption true].
Proof.
  refine (proj1 (missing_output_is_reported forgetful "video:abc123:720" 42 7
            (initial_world ∅ ∅) "video" "abc123" "720" ∅ eq_refl eq_refl eq_refl _)).
  apply not_elem_of_empty.
Defined.

(** With a transport that performs every call and a download that leaves
    its file at the path, the run is: answer, "preparing", download,
    "uploading", one upload to the chat of the pressed button, deletion
    of the selection message. The upload is an audio only for the kind
    [audio], a video for any other kind; its title is the session's
    [video_title], or "video" when the session has none. The handler
    returns normally and the file is removed. *)
Theorem successful_download_is_uploaded (o : oracle) (data : string)
    (from_user_id chat_id : Z) (w : world)
    (download_type video_id quality_or_id : string) (left : gset string) :
  cooperates o →
  parse_token data = Ok (download_type, video_id, quality_or_id) →
  let path := file_path from_user_id download_type video_id in
  let opts := make_opts (download_format download_type quality_or_id) path in
  let history := calls w ++ [Answer; EditCaption msg_preparing false] in
  let title := default "video" (user_data w !! "video_title") in
  download o history opts (watch_url video_id) (files w) = (left, None) →
  path ∈ left →
  let r := download_button_callback o data from_user_id chat_id w in
  r.1 = Ok () ∧
  calls r.2 = history ++ [Download opts (watch_url video_id);
                          EditCaption msg_uploading false;
                          upload_call download_type chat_id path title;
                          DeleteMessage] ∧
  files r.2 = left ∖ {[path]}.
Proof.
  intros Hcoop Hparse path opts history title Hdl Hpresent r. unfold r.
  rewrite (callback_reaches_try _ _ _ _ _ _ _ _ (Hcoop _ _) Hparse).
  fold path opts history. set (w1 := World (files w) (user_data w) history).
  set (body := try_except _ _).
  assert (Hbody : body w1 =
            (Ok (), World left (user_data w)
                      (history ++ [Download opts (watch_url video_id);
                                   EditCaption msg_uploading false;
                                   upload_call download_type chat_id path title;
                                   DeleteMessage]))).
  { unfold body, try_except, fetch_and_upload, bind at 1, call_download. simpl.
    rewrite Hdl. unfold bind at 1. rewrite tg_ok by done. cbv beta iota.
    unfold bind at 1, get_user_data. unfold bind at 1, open_rb. cbn [files].
    rewrite bool_decide_true by done. unfold bind at 1, upload_call. cbn [user_data].
    fold title.
    destruct (String.eqb download_type "audio"); rewrite !tg_ok by done;
      cbn [files user_data calls]; by rewrite <- !app_assoc. }
  destruct (try_finally_cleanup body path w1) as (Hres & Hfiles & _ & Hcalls).
  rewrite Hres, Hfiles, Hcalls, Hbody. done.
Qed.

Lemma successful_download_is_uploaded_witness :
  calls (snd (download_button_callback (cooperative sample_info)
                "clip:abc123:22" 42 7 (initial_world ∅ ∅)))
  = [Answer; EditCaption msg_preparing false;
     Download (make_opts "22" "42_abc123.mp4")
              "https://www.youtube.com/watch?v=abc123";
     EditCaption msg_uploading false;
     SendVideo 7 "42_abc123.mp4" "video";
     DeleteMessage].
Proof.
  refine (proj1 (proj2 (successful_download_is_uploaded (cooperative sample_info)
            "clip:abc123:22" 42 7 (initial_world ∅ ∅) "clip" "abc123" "22"
            {["42_abc123.mp4"]} _ eq_refl _ _))).
  - by intros ??.
  - vm_compute. reflexivity.
  - by apply elem_of_singleton.
Defined.

(** The goal is that the history grew by a list of calls with a property:
    put the history in the form [start ++ later] and check the calls. *)
Local Ltac close_history :=
  cbn [calls record_call files user_data fst snd];
  rewrite <- ?app_assoc; eexists; split; [reflexivity|];
  repeat first [done | constructor].

(** Case analysis on the outcome of the transport call that is next to
    run. *)
Local Ltac case_tg :=
  match goal with
  | |- context [tg ?o ?c ?w] =>
      destruct (tg_cases o c w) as [->|[? ->]]; cbv beta iota
  end.

(** The body has raised: what is left is the edit of an [except] clause. *)
Local Ltac hand_to_except :=
  rewrite on_failure_is_edit, tg_calls; close_history.

(** Every upload of a run goes to the chat of the pressed button and
    carries the title found in the session when the run started. *)
Lemma callback_uploads (o : oracle) (data : string) (from_user_id chat_id : Z)
    (w : world) :
  ∃ later,
    calls (download_button_callback o data from_user_id chat_id w).2
      = calls w ++ later ∧
    Forall (upload_labelled chat_id (default "video" (user_data w !! "video_title")))
           later.
Proof.
  destruct (transport o (calls w) Answer) as [msg|] eqn:Hanswer;
    [|destruct (parse_token data) as [[[download_type video_id] q]|e'] eqn:Hparse].
  - destruct (callback_stops_early o data from_user_id chat_id w) as [e' ->];
      [left; congruence|].
    exists [Answer]. split; [done|]. by repeat constructor.
  - rewrite (callback_reaches_try _ _ _ _ _ _ _ _ Hanswer Hparse).
    set (w1 := World _ _ _). set (path := file_path _ _ _).
    set (opts := make_opts _ _). set (body := try_except _ _).
    destruct (try_finally_cleanup body path w1) as (_ & _ & _ & ->).
    set (P := upload_labelled chat_id (default "video" (user_data w !! "video_title"))).
    assert (Hbody : ∃ later, calls (body w1).2 = calls w1 ++ later ∧ Forall P later).
    { unfold body, try_except, fetch_and_upload, bind at 1, call_download.
      destruct (download o (calls w1) opts (watch_url video_id) (files w1))
        as [left [e|]]; [hand_to_except|].
      unfold bind at 1. case_tg; [|hand_to_except].
      unfold bind at 1, get_user_data. unfold bind at 1, open_rb.
      cbn [files user_data calls record_call fst snd].
      case_bool_decide; [|hand_to_except].
      unfold bind at 1.
      destruct (String.eqb download_type "audio");
        (case_tg; [case_tg; [close_history|hand_to_except]
                  |hand_to_except]). }
    destruct Hbody as (later & -> & Hlater). unfold w1. cbn [calls].
    exists ([Answer; EditCaption msg_preparing false] ++ later).
    split; [by rewrite <- app_assoc|].
    apply Forall_app. split; [by repeat constructor|done].
  - destruct (callback_stops_early o data from_user_id chat_id w) as [e'' ->].
    { right. unfold parse_token in *. by repeat case_match; simplify_eq. }
    exists [Answer]. split; [done|]. by repeat constructor.
Qed.

Lemma url_handler_stores_title (o : oracle) (url : string) (w : world)
    (info : info_dict) :
  transport o (calls w) (ReplyText msg_processing) = None →
  extract_info o (calls w ++ [ReplyText msg_processing]) url = Ok info →
  user_data (url_handler o url w).2
  = <["video_title" := default "No Title" (info_title info)]> (user_data w).
Proof.
  intros Hreply Hextract.
  rewrite (url_handler_after_extraction _ _ _ _ Hreply Hextract).
  apply (preserves_try_except user_data).
  - apply preserves_bind; [apply preserves_lift|]. intros [|row keyboard].
    + apply tg_keeps_user_data.
    + apply preserves_bind; [apply tg_keeps_user_data|]. intros _.
      destruct (nonempty _); apply tg_keeps_user_data.
  - intros e. destruct (on_error_is_edit o e) as [text ->].
    apply tg_keeps_user_data.
Qed.

(** The two handlers together: after a link has been resolved, every
    upload made for a button press carries the title of that link, the
    last one resolved, whatever token the button holds; the token of a
    button shown for an earlier link is uploaded under the newer title. *)
Theorem upload_carries_last_resolved_title (o1 o2 : oracle) (url : string)
    (w : world) (info : info_dict) (data : string) (from_user_id chat_id : Z) :
  transport o1 (calls w) (ReplyText msg_processing) = None →
  extract_info o1 (calls w ++ [ReplyText msg_processing]) url = Ok info →
  let w1 := (url_handler o1 url w).2 in
  let r := download_button_callback o2 data from_user_id chat_id w1 in
  ∃ later,
    calls r.2 = calls w1 ++ later ∧
    Forall (upload_labelled chat_id (default "No Title" (info_title info))) later.
Proof.
  intros Hreply Hextract w1 r.
  destruct (callback_uploads o2 data from_user_id chat_id w1)
    as (later & Hcalls & Hlater).
  exists later. split; [exact Hcalls|].
  unfold w1 in Hlater.
  rewrite (url_handler_stores_title _ _ _ _ Hreply Hextract) in Hlater.
  by rewrite lookup_insert_eq in Hlater.
Qed.

Lemma upload_carries_last_resolved_title_witness :
  ∃ later,
    calls (snd (download_button_callback (cooperative sample_info)
                  "video:zzz999:720" 42 7 bare_run.2))
      = calls bare_run.2 ++ later ∧
    Forall (upload_labelled 7 "Lecture 1") later.
Proof.
  exact (upload_carries_last_resolved_title (cooperative bare_info)
           (cooperative sample_info) "https://youtu.be/abc123"
           (initial_world ∅ ∅) bare_info "video:zzz999:720" 42 7
           eq_refl eq_refl).
Defined.

End SelectionHandlerMore.

(** * Start-up *)

Section StartupFacts.
Import Startup.

(** Running the script either fails while the module loads, exactly when
    the token variable is missing or empty, or ends in polling with that
    token and the three handlers in their order. The early return of
    [main] for a token that is not set is never taken. *)
Theorem script_outcomes (environ : gmap string string) :
  script environ ≠ Ok TokenNotSet ∧
  (script environ = Raise ValueError ↔
     environ !! "TELEGRAM_BOT_TOKEN" = None ∨
     environ !! "TELEGRAM_BOT_TOKEN" = Some "") ∧
  (∀ out, script environ = Ok out ↔
     ∃ token, environ !! "TELEGRAM_BOT_TOKEN" = Some token ∧ token ≠ "" ∧
              out = Polling token [OnCommand "start"; OnPlainText; OnCallbackQuery]).
Proof.
  unfold script, load_module, main.
  destruct (environ !! "TELEGRAM_BOT_TOKEN") as [token|]; simpl.
  - case_bool_decide as Htoken; simpl.
    + subst token. split; [done|]. split; [by split; [right|]|].
      intros out. split; [done|]. by intros (? & [= <-] & ? & _).
    + rewrite bool_decide_false by done. split; [done|]. split.
      * split; [done|]. intros [|[= ->]]; done.
      * intros out. split.
        -- intros [= <-]. by exists token.
        -- by intros (? & [= <-] & _ & ->).
  - split; [done|]. split; [by split; [left|]|].
    intros out. split; [done|]. by intros (? & ? & _).
Qed.

End StartupFacts.

(** * The audio pick and the sizes that can be printed *)

Section Printable.
Import Helpers Link.

(** The audio step on any format list: the format it picks passes the
    audio filter and no format declared after it does; without a pick no
    format passes the filter and no row is added; with a pick whose size
    [format_size] can print, exactly one row of one button is added, with
    the audio token of the pick. *)
Theorem audio_button_for_last_candidate (video_id : option string)
    (formats : list format_desc) :
  match best_audio formats with
  | Some f =>
      is_audio_candidate f = true ∧
      (∃ earlier later, formats = earlier ++ f :: later ∧
                        ∀ g, g ∈ later → is_audio_candidate g = false) ∧
      ∀ size, format_size (file_size f) = Ok size →
        audio_buttons video_id formats =
        Ok [[Button (audio_label size)
                    (audio_token (str_id video_id) (format_id f))]]
  | None =>
      (∀ g, g ∈ formats → is_audio_candidate g = false) ∧
      audio_buttons video_id formats = Ok []
  end.
Proof.
  pose proof (best_audio_spec formats) as Hpick.
  pose proof (audio_buttons_spec video_id formats) as Hrows.
  destruct (best_audio formats) as [f|]; [|done].
  destruct Hpick as [Hf Hlast]. by destruct Hrows as [Hok _].
Qed.

(** On a byte count from 1 up to (not including) [1024^4], [format_size]
    prints the count divided by [1024^i] and rounded to the nearest
    hundredth, followed by the unit of index [i], where [1024^i] is the
    largest power of 1024 not above the count. *)
Theorem format_size_prints_magnitude_unit (n : Z) :
  0 < n → n < 1024 ^ 4 →
  ∃ i u,
    0 ≤ i ≤ 3 ∧ 1024 ^ i ≤ n < 1024 ^ (i + 1) ∧
    size_name !! Z.to_nat i = Some u ∧
    2 * Z.abs (100 * n - round2 n (1024 ^ i) * 1024 ^ i) ≤ 1024 ^ i ∧
    format_size (Some n) =
      Ok ("(" +:+ str_float2 (round2 n (1024 ^ i)) +:+ " " +:+ u +:+ ")").
Proof.
  intros Hpos Hlt.
  destruct (format_size_below_tebibyte n Hpos Hlt)
    as (i & u & Hi & Hn & Hu & Hround & Hprint & _).
  by exists i, u.
Qed.

Lemma format_size_prints_magnitude_unit_witness :
  ∃ i u, 0 ≤ i ≤ 3 ∧ 1024 ^ i ≤ 123456789 < 1024 ^ (i + 1) ∧
         size_name !! Z.to_nat i = Some u.
Proof.
  destruct (format_size_prints_magnitude_unit 123456789 ltac:(lia) ltac:(lia))
    as (i & u & Hi & Hn & Hu & _).
  by exists i, u.
Defined.

End Printable.

Section PrintableSample.
Import Helpers Link.

Lemma video_buttons_defined_witness :
  is_Ok (video_buttons (Some "abc123") sample_formats).
Proof.
  apply video_buttons_defined. intros f Hf.
  repeat (apply elem_of_cons in Hf as [->|Hf]; [by eexists|]).
  by apply elem_of_nil in Hf.
Defined.

End PrintableSample.
